(** * SmartExam question-paper compiler: a shallow embedding and its properties

    The development follows the C sources of the compiler directory:

    - [semantic.c]     the marks validator and the keyword classifier
    - [ast.h]          the document tree ([ASTNode], [QuestionNode])
    - [ast_helpers.c]  node construction, list append and the DOT exporter
    - [main.c]         the driver

    C [int] values are integers reduced to 32 bits, pointers are addresses
    into a typed heap (address 0 is [NULL]), C strings are [string]s holding
    the characters before the terminator, and every function with an effect
    is a state transformer over the memory and the streams it touches. *)

From Stdlib Require Import ZArith String Ascii List Lia Permutation DecimalString QArith.
From stdpp Require Import gmap strings list fin_maps.
From Stdlib Require DecimalZ.

Open Scope string_scope.
Open Scope list_scope.
Open Scope Z_scope.

(* ===================================================================== *)
(** * Definitions                                                         *)
(* ===================================================================== *)

(** ** C integers *)

Definition INT_MIN : Z := -2147483648.
Definition INT_MAX : Z := 2147483647.

(** Two's complement reduction of an integer to a 32-bit [int]; every
    [int] addition and increment of the sources goes through it. ISO C
    leaves signed overflow undefined; the model gives it the wrap-around
    result that compilers produce for these additions. *)
Definition wrap_int (z : Z) : Z := (z + 2147483648) mod 4294967296 - 2147483648.

Definition in_int_range (z : Z) : Prop := INT_MIN <= z <= INT_MAX.

(** The [NULL] pointer. *)
Definition NULL : Z := 0.

(** ** C strings and formatted output *)

(** The newline character, backslash-n in a C literal. *)
Definition nl : string := String (ascii_of_nat 10) EmptyString.

(** The double quote character, escaped in a C literal. *)
Definition dq : string := String (ascii_of_nat 34) EmptyString.

(** The two characters backslash and n, a doubled backslash followed by n
    in a C literal: the line break of a DOT label. *)
Definition bsn : string := String (ascii_of_nat 92) "n".

(** The [%d] conversion of [printf]. *)
Definition fmt_d (z : Z) : string := NilZero.string_of_int (Z.to_int z).

(** [strstr haystack needle]: the suffix of [haystack] that starts at the
    first occurrence of [needle], or [None] for the [NULL] result. *)
Fixpoint strstr (haystack needle : string) : option string :=
  if String.prefix needle haystack then Some haystack
  else match haystack with
       | EmptyString => None
       | String _ rest => strstr rest needle
       end.

(** A pointer used as a condition is true when it is not [NULL]. *)
Definition non_null {A : Type} (p : option A) : bool :=
  match p with Some _ => true | None => false end.

(** [needle] occurs in [text] as a contiguous run of characters. *)
Definition occurs_in (needle text : string) : Prop :=
  exists before after : string, text = before +:+ needle +:+ after.

(** [tolower] of the C library on one character, and on a whole string. *)
Definition tolower (c : ascii) : ascii :=
  let n := nat_of_ascii c in
  if ((65 <=? n) && (n <=? 90))%nat then ascii_of_nat (n + 32) else c.

Fixpoint lower (s : string) : string :=
  match s with
  | EmptyString => EmptyString
  | String c rest => String (tolower c) (lower rest)
  end.

(** ** Effects: a state and fault monad *)

(** A run of a C function from a state of type [S] either finishes with a
    result and a new state, has undefined behaviour ([Fault]: it reads
    through or frees an address that holds no object, or writes past a
    buffer), or is cut off by the loop budget of the model. *)
Inductive outcome (S A : Type) : Type :=
| Done (a : A) (s : S)
| Fault
| OutOfFuel.

Arguments Done {S A} a s.
Arguments Fault {S A}.
Arguments OutOfFuel {S A}.

Definition M (S A : Type) : Type := S -> outcome S A.

#[global] Instance M_ret (S : Type) : MRet (M S) := fun A a s => Done a s.

#[global] Instance M_bind (S : Type) : MBind (M S) := fun A B f m s =>
  match m s with
  | Done a s' => f a s'
  | Fault => Fault
  | OutOfFuel => OutOfFuel
  end.

Definition out_of_fuel {S A : Type} : M S A := fun _ => OutOfFuel.

Definition fault {S A : Type} : M S A := fun _ => Fault.

(** ** NULL-terminated singly linked lists *)

Section LinkedList.
Context {node : Type} (next : node -> Z).

(** [is_list next h p ns]: following [next] from the address [p] in the
    memory [h] visits exactly the objects [ns], in this order, and then
    reaches [NULL]. *)
Fixpoint is_list (h : gmap Z node) (p : Z) (ns : list node) : Prop :=
  match ns with
  | [] => p = NULL
  | n :: ns' => p <> NULL /\ h !! p = Some n /\ is_list h (next n) ns'
  end.
End LinkedList.

(* ===================================================================== *)
(** ** semantic.c                                                         *)
(* ===================================================================== *)

Module Semantic.

(** [struct Question]; [next] is the address of the next node. *)
Record Question : Type := mkQuestion {
  number : Z;
  text : string;
  marks : Z;
  difficulty : string;
  next : Z
}.

(** The memory holding the [Question] objects, and standard output as
    the sequence of chunks written by the [printf] calls. *)
Record State : Type := mkState {
  heap : gmap Z Question;
  stdout : list string
}.

Definition load (p : Z) : M State Question := fun s =>
  match heap s !! p with
  | Some q => Done q s
  | None => Fault
  end.

Definition store (p : Z) (q : Question) : M State unit := fun s =>
  Done tt {| heap := <[p := q]> (heap s); stdout := stdout s |}.

Definition printf (chunk : string) : M State unit := fun s =>
  Done tt {| heap := heap s; stdout := stdout s ++ [chunk] |}.

(** The [while (ptr)] loop of [validate_marks]. *)
Fixpoint sum_loop (fuel : nat) (ptr : Z) (sum : Z) : M State Z :=
  match fuel with
  | O => out_of_fuel
  | Datatypes.S fuel' =>
      if decide (ptr = NULL) then mret sum
      else q ← load ptr; sum_loop fuel' (next q) (wrap_int (sum + marks q))
  end.

(** [validate_marks]. The parameter [declared_total] is an [int]: a caller
    passes a value of the [int] range, and what is said of other values is
    said of no call of the C function. *)
Definition validate_marks (fuel : nat) (head : Z) (declared_total : Z) : M State Z :=
  sum ← sum_loop fuel head 0;
  if decide (sum = declared_total) then
    printf ("PASS: Marks sum matches declared total (" +:+ fmt_d declared_total
            +:+ ")" +:+ nl);;
    mret 1
  else
    printf ("FAIL: Marks sum " +:+ fmt_d sum +:+ " does not match declared total "
            +:+ fmt_d declared_total +:+ nl);;
    mret 0.

Definition classify_difficulty (text : string) : string :=
  if non_null (strstr text "define") || non_null (strstr text "state") then
    "EASY"
  else if non_null (strstr text "explain") || non_null (strstr text "prove") then
    "MEDIUM"
  else if non_null (strstr text "design") || non_null (strstr text "construct")
          || non_null (strstr text "optimize") then
    "HARD"
  else "MEDIUM".

(** A local variable gets an address that is neither [NULL] nor in use. *)
Definition alloca (q : Question) : M State Z := fun s =>
  let p := fresh ({[NULL]} ∪ dom (heap s)) in
  Done p {| heap := <[p := q]> (heap s); stdout := stdout s |}.

Definition set_next (p : Z) (n : Z) : M State unit :=
  q ← load p;
  store p {| number := number q; text := text q; marks := marks q;
             difficulty := difficulty q; next := n |}.

(** The example [main] of the file. *)
Definition main (fuel : nat) : M State Z :=
  q1 ← alloca (mkQuestion 1 "Define compiler and interpreter." 10 EmptyString NULL);
  q2 ← alloca (mkQuestion 2 "Explain the phases of compiler design." 10 EmptyString NULL);
  q3 ← alloca (mkQuestion 3 "Construct DFA for (a|b)*abb." 12 EmptyString NULL);
  set_next q1 q2;;
  set_next q2 q3;;
  let declared_total := 32 in
  validate_marks fuel q1 declared_total;;
  o1 ← load q1;
  printf ("Q1 difficulty: " +:+ classify_difficulty (text o1) +:+ nl);;
  o3 ← load q3;
  printf ("Q3 difficulty: " +:+ classify_difficulty (text o3) +:+ nl);;
  mret 0.

End Semantic.

(* ===================================================================== *)
(** ** ast.h and ast_helpers.c                                            *)
(* ===================================================================== *)

Module Ast.

(** [struct QuestionNode]. The [char*] fields hold the characters of the
    copy made by [strdup]. *)
Record QuestionNode : Type := mkQuestionNode {
  text : string;
  marks : Z;
  difficulty : string;
  estimated_time : Z;
  syllabus_topic : string;
  status_flag : Z;
  blooms_level : string;
  next : Z
}.

(** [struct ASTNode]; [questions] is the address of the first question. *)
Record ASTNode : Type := mkASTNode {
  subject : string;
  total_marks : Z;
  total_time : Z;
  syllabus_path : string;
  questions : Z
}.

(** The values of [status_flag] listed in ast.h. *)
Definition STATUS_OK : Z := 0.
Definition STATUS_DUPLICATE : Z := 1.
Definition STATUS_OUT_OF_SYLLABUS : Z := 2.

Inductive status : Type := OK | DUPLICATE | OUT_OF_SYLLABUS.

Definition status_of_flag (flag : Z) : option status :=
  if decide (flag = STATUS_OK) then Some OK
  else if decide (flag = STATUS_DUPLICATE) then Some DUPLICATE
  else if decide (flag = STATUS_OUT_OF_SYLLABUS) then Some OUT_OF_SYLLABUS
  else None.

(** What the compiler process can see and change: the two kinds of heap
    objects, the globals [root], [yyin] and [job_dir_path], the files by
    path (a file is the sequence of chunks written to it), the paths that
    cannot be opened for writing, the message of the current [errno], and
    the two output streams. *)
Record Mem : Type := mkMem {
  qnodes : gmap Z QuestionNode;
  anodes : gmap Z ASTNode;
  root : Z;
  yyin : option string;
  job_dir_path : option string;
  files : gmap string (list string);
  no_write : gset string;
  strerror : string;
  stdout : list string;
  stderr : list string
}.

Definition set_qnodes (h : gmap Z QuestionNode) (m : Mem) : Mem :=
  mkMem h (anodes m) (root m) (yyin m) (job_dir_path m) (files m) (no_write m)
        (strerror m) (stdout m) (stderr m).
Definition set_anodes (h : gmap Z ASTNode) (m : Mem) : Mem :=
  mkMem (qnodes m) h (root m) (yyin m) (job_dir_path m) (files m) (no_write m)
        (strerror m) (stdout m) (stderr m).
Definition set_yyin (f : option string) (m : Mem) : Mem :=
  mkMem (qnodes m) (anodes m) (root m) f (job_dir_path m) (files m) (no_write m)
        (strerror m) (stdout m) (stderr m).
Definition set_job_dir_path (d : option string) (m : Mem) : Mem :=
  mkMem (qnodes m) (anodes m) (root m) (yyin m) d (files m) (no_write m)
        (strerror m) (stdout m) (stderr m).
Definition set_files (fs : gmap string (list string)) (m : Mem) : Mem :=
  mkMem (qnodes m) (anodes m) (root m) (yyin m) (job_dir_path m) fs (no_write m)
        (strerror m) (stdout m) (stderr m).
Definition set_stdout (out : list string) (m : Mem) : Mem :=
  mkMem (qnodes m) (anodes m) (root m) (yyin m) (job_dir_path m) (files m)
        (no_write m) (strerror m) out (stderr m).
Definition set_stderr (err : list string) (m : Mem) : Mem :=
  mkMem (qnodes m) (anodes m) (root m) (yyin m) (job_dir_path m) (files m)
        (no_write m) (strerror m) (stdout m) err.

(** *** Memory and stream primitives *)

Definition load_q (p : Z) : M Mem QuestionNode := fun m =>
  match qnodes m !! p with
  | Some q => Done q m
  | None => Fault
  end.

Definition load_a (p : Z) : M Mem ASTNode := fun m =>
  match anodes m !! p with
  | Some a => Done a m
  | None => Fault
  end.

Definition store_q (p : Z) (q : QuestionNode) : M Mem unit := fun m =>
  Done tt (set_qnodes (<[p := q]> (qnodes m)) m).

(** An address that is not [NULL] and holds no object of either kind. *)
Definition unused (m : Mem) : Z :=
  fresh ({[NULL]} ∪ dom (qnodes m) ∪ dom (anodes m)).

(** [malloc] followed by the initialisation of every field. The sources
    use the result of [malloc] unchecked, so the allocation is taken to
    succeed. *)
Definition malloc_q (q : QuestionNode) : M Mem Z := fun m =>
  let p := unused m in Done p (set_qnodes (<[p := q]> (qnodes m)) m).

Definition malloc_a (a : ASTNode) : M Mem Z := fun m =>
  let p := unused m in Done p (set_anodes (<[p := a]> (anodes m)) m).

(** [free] of the address of a tree node. Passing an address that does not
    hold one is undefined behaviour. *)
Definition free_a (p : Z) : M Mem unit := fun m =>
  match anodes m !! p with
  | Some _ => Done tt (set_anodes (delete p (anodes m)) m)
  | None => Fault
  end.

Definition printf (chunk : string) : M Mem unit := fun m =>
  Done tt (set_stdout (stdout m ++ [chunk]) m).

Definition eprintf (chunk : string) : M Mem unit := fun m =>
  Done tt (set_stderr (stderr m ++ [chunk]) m).

Definition perror (msg : string) : M Mem unit := fun m =>
  Done tt (set_stderr (stderr m ++ [msg +:+ ": " +:+ strerror m +:+ nl]) m).

(** [fopen] for writing: [false] for the [NULL] result; on success the
    file exists and is empty. *)
Definition fopen_w (path : string) : M Mem bool := fun m =>
  if decide (path ∈ no_write m) then Done false m
  else Done true (set_files (<[path := []]> (files m)) m).

(** [fopen] for reading: the stream, or [None] for the [NULL] result when
    no file is at [path]. *)
Definition fopen_r (path : string) : M Mem (option string) := fun m =>
  match files m !! path with
  | Some _ => Done (Some path) m
  | None => Done None m
  end.

Definition fprintf (path : string) (chunk : string) : M Mem unit := fun m =>
  Done tt (set_files (<[path := default [] (files m !! path) ++ [chunk]]> (files m)) m).

(** Every chunk is in the file as soon as it is written, so closing a
    stream changes nothing. *)
Definition fclose : M Mem unit := mret tt.

(** [sprintf] into a [char] array of [size] bytes: the text and its
    terminator must fit. *)
Definition sprintf (size : nat) (s : string) : M Mem string :=
  if decide (String.length s < size)%nat then mret s else fault.

(** *** AST creation functions *)

Definition create_ast_node (subject : string) (marks time : Z)
    (syllabus_path : string) (questions : Z) : M Mem Z :=
  malloc_a {| subject := subject; total_marks := marks; total_time := time;
              syllabus_path := syllabus_path; questions := questions |}.

Definition create_question_node (text : string) (marks : Z) : M Mem Z :=
  malloc_q {| text := text; marks := marks;
              difficulty := "N/A";
              estimated_time := 0;
              syllabus_topic := "N/A";
              status_flag := 0;
              blooms_level := "N/A";
              next := NULL |}.

Definition set_next (p : Z) (n : Z) : M Mem unit :=
  q ← load_q p;
  store_q p {| text := text q; marks := marks q; difficulty := difficulty q;
               estimated_time := estimated_time q;
               syllabus_topic := syllabus_topic q;
               status_flag := status_flag q;
               blooms_level := blooms_level q; next := n |}.

(** The [while (current->next != NULL)] loop of [append_question]. *)
Fixpoint find_tail (fuel : nat) (current : Z) : M Mem Z :=
  match fuel with
  | O => out_of_fuel
  | Datatypes.S fuel' =>
      q ← load_q current;
      if decide (next q <> NULL) then find_tail fuel' (next q)
      else mret current
  end.

Definition append_question (fuel : nat) (list_head new_question : Z) : M Mem Z :=
  if decide (list_head = NULL) then mret new_question
  else
    current ← find_tail fuel list_head;
    set_next current new_question;;
    mret list_head.

Definition free_ast (root : Z) : M Mem unit :=
  if decide (root = NULL) then mret tt
  else free_a root.

(** *** The DOT exporter *)

Definition dot_open : string := "digraph AST {" +:+ nl.

Definition dot_defaults : string :=
  "  node [shape=box, style=" +:+ dq +:+ "filled" +:+ dq +:+ ", fillcolor="
  +:+ dq +:+ "lightblue" +:+ dq +:+ "];" +:+ nl.

Definition root_label (subject : string) (total_marks total_time : Z) : string :=
  "Q-Verifier AST" +:+ bsn +:+ "Subject: " +:+ subject +:+ bsn +:+ "Marks: "
  +:+ fmt_d total_marks +:+ bsn +:+ "Time: " +:+ fmt_d total_time +:+ " min".

Definition root_stmt (subject : string) (total_marks total_time : Z) : string :=
  "  root [label=" +:+ dq +:+ root_label subject total_marks total_time
  +:+ dq +:+ "];" +:+ nl.

(** The label of a question node: the [%s] of the format is filled with
    the constant placeholder of the source, the [%d] with the marks. *)
Definition question_label (marks : Z) : string :=
  "Q_TEXT: " +:+ "TODO: Substring" +:+ "..." +:+ bsn +:+ "Q_MARKS: " +:+ fmt_d marks.

Definition question_id (i : Z) : string := "q" +:+ fmt_d i.

Definition question_stmt (i : Z) (marks : Z) : string :=
  "  " +:+ question_id i +:+ " [label=" +:+ dq +:+ question_label marks
  +:+ dq +:+ "];" +:+ nl.

Definition edge_stmt (i : Z) : string :=
  "  root -> " +:+ question_id i +:+ ";" +:+ nl.

Definition dot_close : string := "}" +:+ nl.

(** The [while (q != NULL)] loop of [export_ast_to_dot]. *)
Fixpoint export_loop (fuel : nat) (f : string) (q : Z) (i : Z) : M Mem unit :=
  match fuel with
  | O => out_of_fuel
  | Datatypes.S fuel' =>
      if decide (q <> NULL) then
        n ← load_q q;
        fprintf f (question_stmt i (marks n));;
        fprintf f (edge_stmt i);;
        export_loop fuel' f (next n) (wrap_int (i + 1))
      else mret tt
  end.

Definition export_ast_to_dot (fuel : nat) (root : Z) (filepath : string) : M Mem unit :=
  printf ("AST Helper: Exporting AST to " +:+ filepath +:+ nl);;
  opened ← fopen_w filepath;
  if negb opened then
    perror "Failed to open ast.dot"
  else
    fprintf filepath dot_open;;
    fprintf filepath dot_defaults;;
    r ← load_a root;
    fprintf filepath (root_stmt (subject r) (total_marks r) (total_time r));;
    export_loop fuel filepath (questions r) 0;;
    fprintf filepath dot_close;;
    fclose.

End Ast.

(* ===================================================================== *)
(** ** main.c                                                             *)
(* ===================================================================== *)

Module Driver.
Import Ast.

(** An assignment to a global variable, and the value of one. *)
Definition assign (f : Mem -> Mem) : M Mem unit := fun m => Done tt (f m).
Definition global {A : Type} (f : Mem -> A) : M Mem A := fun m => Done (f m) m.

(** The characters a [char*] global points at, where the program passes it
    to a [%s] conversion or to a function that reads the string. Reading
    through [NULL] is undefined behaviour. *)
Definition string_at (p : Mem -> option string) : M Mem string := fun m =>
  match p m with
  | Some s => Done s m
  | None => Fault
  end.

(** A call of a function of the lexer or the parser, with and without a
    result. *)
Definition call {A : Type} (f : Mem -> A * Mem) : M Mem A := fun m =>
  let '(a, m') := f m in Done a m'.
Definition call_void (f : Mem -> Mem) : M Mem unit := fun m => Done tt (f m).

Section Main.
(** The functions and the behaviour that lexer.l and parser.y supply:
    [yyparse] returns its [int] result and leaves the tree in [root]. Both
    work on the whole memory, the globals included. *)
Variable lexer_init : string -> Mem -> Mem.
Variable lexer_cleanup : Mem -> Mem.
Variable yyparse : Mem -> Z * Mem.

(** [main]; [argv] holds the [argc] arguments of the process. The globals
    [job_dir_path] and [root] are read again at every use. *)
Definition main (fuel : nat) (argv : list string) : M Mem Z :=
  if decide (length argv <> 2%nat) then
    eprintf ("Usage: " +:+ default "(null)" (argv !! 0%nat)
             +:+ " <path_to_job_directory>" +:+ nl);;
    mret 1
  else
    assign (set_job_dir_path (Some (default EmptyString (argv !! 1%nat))));;
    job ← string_at job_dir_path;
    printf ("Compiler worker started for job: " +:+ job +:+ nl);;
    job ← string_at job_dir_path;
    input_path ← sprintf 1024 (job +:+ "/input.qp");
    f ← fopen_r input_path;
    assign (set_yyin f);;
    if decide (f = None) then
      eprintf ("Fatal Error: Cannot open input file " +:+ input_path +:+ nl);;
      mret 1
    else
      job ← string_at job_dir_path;
      call_void (lexer_init job);;
      printf ("Phases 1 (Lex) & 2 (Parse) running..." +:+ nl);;
      parse_result ← call yyparse;
      fclose;;
      call_void lexer_cleanup;;
      r ← global root;
      if decide (parse_result <> 0 \/ r = NULL) then
        eprintf ("Fatal Error: Parsing failed. Check syntax of input.qp." +:+ nl);;
        mret 1
      else
        printf ("Phases 1 & 2 Complete. AST built successfully." +:+ nl);;
        job ← string_at job_dir_path;
        dot_path ← sprintf 1024 (job +:+ "/ast.dot");
        r ← global root;
        export_ast_to_dot fuel r dot_path;;
        printf ("Phase 2 (Web Output) Complete. ast.dot generated." +:+ nl);;
        r ← global root;
        free_ast r;;
        job ← string_at job_dir_path;
        printf ("Compiler worker finished for job: " +:+ job +:+ nl);;
        mret 0.
End Main.

End Driver.

(* ===================================================================== *)
(** ** The duplicate detector and the status merge (no source)            *)
(* ===================================================================== *)

Module Duplicates.

Section Detector.
(** Modelled from the spec: the tokeniser that splits a question text
    into its words. No source file contains a duplicate detector, and
    the design (section 4.5) names word sets without fixing the split. *)
Variable words : string -> list string.

(** Modelled from the spec: the fixed duplicate threshold of section
    4.5, whose value the design leaves to the implementer. *)
Variable threshold : Q.

(** Modelled from the spec: the case-insensitive word set of a text. *)
Definition word_set (text : string) : gset string :=
  list_to_set (lower <$> words text).

(** Modelled from the spec: the normalized token-overlap ratio,
    intersection size over union size of the two word sets. Two texts
    without any word have equal word sets and get the ratio 1. *)
Definition similarity (a b : string) : Q :=
  let common := size (word_set a ∩ word_set b) in
  let total := size (word_set a ∪ word_set b) in
  if decide (total = 0%nat) then 1%Q
  else (inject_Z (Z.of_nat common) / inject_Z (Z.of_nat total))%Q.

(** Modelled from the spec: the score meets or exceeds the threshold. *)
Definition similar (a b : string) : bool :=
  Qle_bool threshold (similarity a b).

(** Modelled from the spec: the comparison of one ordered pair, the
    earlier question at index [i] and the later one at index [j]. Only
    the later question can get the mark. *)
Definition compare_pair (texts : list string) (i j : nat)
    (marked : list bool) : list bool :=
  match texts !! i, texts !! j with
  | Some a, Some b => if similar a b then <[j := true]> marked else marked
  | _, _ => marked
  end.

(** Modelled from the spec: every earlier question against the one at
    index [j]. *)
Definition scan_earlier (texts : list string) (j : nat)
    (marked : list bool) : list bool :=
  foldl (fun acc i => compare_pair texts i j acc) marked (seq 0 j).

(** Modelled from the spec: the pass over the whole ordered sequence,
    quadratic in its length, that returns the duplicate candidates. *)
Definition detect_duplicates (texts : list string) : list bool :=
  foldl (fun acc j => scan_earlier texts j acc)
        (replicate (length texts) false) (seq 0 (length texts)).

(** Modelled from the spec: the status priority of section 4.6, with
    the codes of ast.h. *)
Definition merge_status (duplicate unmatched : bool) : Z :=
  if duplicate then Ast.STATUS_DUPLICATE
  else if unmatched then Ast.STATUS_OUT_OF_SYLLABUS
  else Ast.STATUS_OK.

(** Modelled from the spec: the final status of every question, from
    the texts and the outcome of the syllabus classifier. *)
Definition final_statuses (texts : list string) (unmatched : list bool) : list Z :=
  zip_with merge_status (detect_duplicates texts) unmatched.
End Detector.

(** A tokeniser for the examples: the words are the runs of characters
    between spaces. *)
Fixpoint split_spaces (cur : string) (s : string) : list string :=
  match s with
  | EmptyString => if decide (cur = EmptyString) then [] else [cur]
  | String c rest =>
      if decide (c = " "%char) then
        (if decide (cur = EmptyString) then [] else [cur]) ++ split_spaces EmptyString rest
      else split_spaces (cur +:+ String c EmptyString) rest
  end.

End Duplicates.

(* ===================================================================== *)
(** ** Vocabulary of the properties                                       *)
(* ===================================================================== *)

(** The keyword sets of the three tests of [classify_difficulty], in the
    order of the tests. *)
Definition rule1_keywords : list string := ["define"; "state"].
Definition rule2_keywords : list string := ["explain"; "prove"].
Definition rule3_keywords : list string := ["design"; "construct"; "optimize"].

(** Some keyword of the set occurs in the text, character for character. *)
Definition matches (keywords : list string) (text : string) : Prop :=
  exists k, k ∈ keywords /\ occurs_in k text.

(** Some keyword of the set occurs in the text when the case of letters is
    ignored. *)
Definition matches_nocase (keywords : list string) (text : string) : Prop :=
  exists k, k ∈ keywords /\ occurs_in (lower k) (lower text).

(** The arithmetic sum of the marks of a question list. *)
Definition sum_of_marks (qs : list Semantic.Question) : Z :=
  foldr Z.add 0 (Semantic.marks <$> qs).

(** The chunks the exporter writes for the questions [ns], the first of
    them numbered [i], and the whole file for the document [r]. *)
Fixpoint question_stmts (i : Z) (ns : list Ast.QuestionNode) : list string :=
  match ns with
  | [] => []
  | n :: ns' =>
      Ast.question_stmt i (Ast.marks n) :: Ast.edge_stmt i
        :: question_stmts (wrap_int (i + 1)) ns'
  end.

Definition dot_file (r : Ast.ASTNode) (ns : list Ast.QuestionNode) : list string :=
  [Ast.dot_open; Ast.dot_defaults;
   Ast.root_stmt (Ast.subject r) (Ast.total_marks r) (Ast.total_time r)]
  ++ question_stmts 0 ns ++ [Ast.dot_close].

(** The memory in which the file at [path] holds exactly [content]. *)
Definition write_file (path : string) (content : list string) (m : Ast.Mem) : Ast.Mem :=
  Ast.set_files (<[path := content]> (Ast.files m)) m.

(** The kinds of statements of the exported graph, told apart by the way
    the chunk starts. *)
Definition is_root_node (chunk : string) : bool := String.prefix "  root [label=" chunk.
Definition is_question_node (chunk : string) : bool := String.prefix "  q" chunk.
Definition is_root_edge (chunk : string) : bool := String.prefix "  root -> q" chunk.

(** The placeholder the constructors store in a text annotation that has
    no value yet. *)
Definition unset_text (s : string) : Prop := s = "N/A".

(** A status flag with none of the three meanings of ast.h. *)
Definition unset_status (flag : Z) : Prop := Ast.status_of_flag flag = None.

(** The memory and the path the driver works with for the job [job]: the
    path of its input, the memory in which the input is opened, and the
    result of the parser with the memory left by the lexer clean-up. *)
Definition input_path (job : string) : string := job +:+ "/input.qp".

Definition dot_path (job : string) : string := job +:+ "/ast.dot".

Definition at_open (job : string) (m : Ast.Mem) : Ast.Mem :=
  Ast.set_stdout (Ast.stdout m ++ ["Compiler worker started for job: " +:+ job +:+ nl])
    (Ast.set_job_dir_path (Some job) m).


(** Sample data: the three questions of the example of semantic.c, linked
    at the addresses 1, 2 and 3, and three questions whose marks add up to
    more than an [int] can hold. *)
Definition sample_q1 : Semantic.Question :=
  Semantic.mkQuestion 1 "Define compiler and interpreter." 10 EmptyString 2.
Definition sample_q2 : Semantic.Question :=
  Semantic.mkQuestion 2 "Explain the phases of compiler design." 10 EmptyString 3.
Definition sample_q3 : Semantic.Question :=
  Semantic.mkQuestion 3 "Construct DFA for (a|b)*abb." 12 EmptyString NULL.
Definition sample_heap : gmap Z Semantic.Question :=
  <[1 := sample_q1]> (<[2 := sample_q2]> (<[3 := sample_q3]> ∅)).

Definition large_q1 : Semantic.Question :=
  Semantic.mkQuestion 1 "Prove the theorem." 2147483647 EmptyString 2.
Definition large_q2 : Semantic.Question :=
  Semantic.mkQuestion 2 "Design the parser." 2147483647 EmptyString 3.
Definition large_q3 : Semantic.Question :=
  Semantic.mkQuestion 3 "State the lemma." 2 EmptyString NULL.
Definition large_heap : gmap Z Semantic.Question :=
  <[1 := large_q1]> (<[2 := large_q2]> (<[3 := large_q3]> ∅)).

(** A memory without objects and files, and a document of two questions:
    the tree at address 1, its questions at 2 and 3, the second of them
    already annotated. *)
Definition empty_mem : Ast.Mem :=
  Ast.mkMem ∅ ∅ NULL None None ∅ ∅ "No such file or directory" [] [].

Definition paper_q1 : Ast.QuestionNode :=
  Ast.mkQuestionNode "Define compiler and interpreter." 10 "N/A" 0 "N/A" 0 "N/A" 3.
Definition paper_q2 : Ast.QuestionNode :=
  Ast.mkQuestionNode "Construct DFA for (a|b)*abb." 5 "Hard" 0 "Automata"
    Ast.STATUS_DUPLICATE "Creating" NULL.
Definition paper_root : Ast.ASTNode :=
  Ast.mkASTNode "Compiler Design" 15 30 "syllabus/cd.json" 2.
Definition paper_mem : Ast.Mem :=
  Ast.mkMem (<[2 := paper_q1]> (<[3 := paper_q2]> ∅)) (<[1 := paper_root]> ∅)
            1 None None ∅ ∅ "No such file or directory" [] [].

(** Stand-ins for the lexer and the parser in the examples: a lexer that
    starts its token log in the job directory, a parser that accepts the
    input and leaves the sample document in memory, and a parser that
    rejects the input. A job whose input file exists. *)
Definition sample_lexer_init (job : string) (m : Ast.Mem) : Ast.Mem :=
  write_file (job +:+ "/tokens.json") ["["] m.

Definition sample_lexer_cleanup (m : Ast.Mem) : Ast.Mem :=
  Ast.set_files
    (<[ "jobs/j1/tokens.json" := default [] (Ast.files m !! "jobs/j1/tokens.json") ++ ["]"] ]>
       (Ast.files m)) m.

Definition accepting_yyparse (m : Ast.Mem) : Z * Ast.Mem :=
  (0, Ast.mkMem (Ast.qnodes paper_mem) (Ast.anodes paper_mem) 1 (Ast.yyin m)
        (Ast.job_dir_path m) (Ast.files m) (Ast.no_write m) (Ast.strerror m)
        (Ast.stdout m) (Ast.stderr m)).


Definition job_mem : Ast.Mem :=
  write_file "jobs/j1/input.qp" ["SUBJECT Compiler Design"] empty_mem.

(* ===================================================================== *)
(** ** Vocabulary of the further properties                               *)
(* ===================================================================== *)

Section Chains.
Context {node : Type} (next : node -> Z).

(** [is_seg next h p ns q]: following [next] from [p] in [h] visits the
    objects [ns] in this order and arrives at the address [q]. *)
Fixpoint is_seg (h : gmap Z node) (p : Z) (ns : list node) (q : Z) : Prop :=
  match ns with
  | [] => p = q
  | n :: ns' => p <> NULL /\ h !! p = Some n /\ is_seg h (next n) ns' q
  end.

(** The addresses at which the objects [ns] of a chain from [p] live. *)
Fixpoint list_addrs (p : Z) (ns : list node) : list Z :=
  match ns with
  | [] => []
  | n :: ns' => p :: list_addrs (next n) ns'
  end.

(** Every address of [addrs] holds an object whose successor is again in
    [addrs]: a chain that starts there never reaches [NULL]. *)
Definition closed_chain (h : gmap Z node) (addrs : gset Z) : Prop :=
  forall a, a ∈ addrs ->
    a <> NULL /\ exists n, h !! a = Some n /\ next n ∈ addrs.
End Chains.

(** The two lines [validate_marks] can print. *)
Definition pass_line (declared_total : Z) : string :=
  "PASS: Marks sum matches declared total (" +:+ fmt_d declared_total +:+ ")" +:+ nl.

Definition fail_line (sum declared_total : Z) : string :=
  "FAIL: Marks sum " +:+ fmt_d sum +:+ " does not match declared total "
  +:+ fmt_d declared_total +:+ nl.

(** Two questions that point at each other, and a question whose successor
    is an address without an object. *)
Definition ring_heap : gmap Z Semantic.Question :=
  <[1 := Semantic.mkQuestion 1 "State the theorem." 10 EmptyString 2]>
    (<[2 := Semantic.mkQuestion 2 "Prove the theorem." 10 EmptyString 1]> ∅).

Definition torn_heap : gmap Z Semantic.Question :=
  <[1 := Semantic.mkQuestion 1 "State the theorem." 10 EmptyString 7]> ∅.

(** A lower-case letter of the C locale. *)
Definition is_lower_letter (c : ascii) : bool :=
  let n := nat_of_ascii c in ((97 <=? n) && (n <=? 122))%nat.

(** The node [q] with its [next] field set to [n], as the assignment
    [current->next = new_question] leaves it, and a list of nodes with the
    [next] field of its last node set to [new]. *)
Definition with_next (q : Ast.QuestionNode) (n : Z) : Ast.QuestionNode :=
  {| Ast.text := Ast.text q; Ast.marks := Ast.marks q;
     Ast.difficulty := Ast.difficulty q;
     Ast.estimated_time := Ast.estimated_time q;
     Ast.syllabus_topic := Ast.syllabus_topic q;
     Ast.status_flag := Ast.status_flag q;
     Ast.blooms_level := Ast.blooms_level q; Ast.next := n |}.

Fixpoint relink_last (new : Z) (ns : list Ast.QuestionNode) : list Ast.QuestionNode :=
  match ns with
  | [] => []
  | [n] => [with_next n new]
  | n :: ns' => n :: relink_last new ns'
  end.

(** The question node that [create_question_node] initialises. *)
Definition fresh_question (text : string) (marks : Z) : Ast.QuestionNode :=
  Ast.mkQuestionNode text marks "N/A" 0 "N/A" 0 "N/A" NULL.

(** The reading of a decimal numeral, the inverse of the [%d] conversion. *)
Definition parse_d (s : string) : option Z := Z.of_int <$> NilZero.int_of_string s.

(** The two lines the exporter can write on the output streams. *)
Definition exporting_line (filepath : string) : string :=
  "AST Helper: Exporting AST to " +:+ filepath +:+ nl.

Definition perror_line (m : Ast.Mem) : string :=
  "Failed to open ast.dot" +:+ ": " +:+ Ast.strerror m +:+ nl.

(** The sample paper in a memory whose job directory cannot be written,
    and the sample paper with other texts and without annotations. *)
Definition locked_mem : Ast.Mem :=
  Ast.mkMem (Ast.qnodes paper_mem) (Ast.anodes paper_mem) 1 None None ∅
            {[ "jobs/j1/ast.dot" ]} "Permission denied" [] [].

Definition plain_mem : Ast.Mem :=
  Ast.mkMem (<[5 := fresh_question "State the pumping lemma." 5]>
               (<[6 := with_next (fresh_question "Optimize the loop." 10) 5]> ∅))
            (<[9 := Ast.mkASTNode "Compiler Design" 15 30 "syllabus/other.json" 6]> ∅)
            9 None None ∅ ∅ "No such file or directory" [] [].

(** The lines the driver writes on the output streams. *)
Definition usage_line (argv : list string) : string :=
  "Usage: " +:+ default "(null)" (argv !! 0%nat) +:+ " <path_to_job_directory>" +:+ nl.

Definition cannot_open_line (job : string) : string :=
  "Fatal Error: Cannot open input file " +:+ input_path job +:+ nl.







(** A job directory whose name has 1015 characters, one more than the
    buffer of the input path can take, and one with 1014. *)
Definition long_job : string := string_of_list_ascii (List.repeat "j"%char 1015).
Definition longest_job : string := string_of_list_ascii (List.repeat "j"%char 1014).



(** The identifier of a node statement of the exported graph: the
    characters after the indentation of two spaces, up to the next space. *)
Fixpoint upto_space (s : string) : string :=
  match s with
  | EmptyString => EmptyString
  | String c s' => if Ascii.eqb c " " then EmptyString else String c (upto_space s')
  end.

Definition node_id (stmt : string) : string :=
  match stmt with
  | String _ (String _ rest) => upto_space rest
  | _ => EmptyString
  end.

(** A paper whose two questions have the same text and the same marks. *)
Definition twin_root : Ast.ASTNode :=
  Ast.mkASTNode "Compiler Design" 10 30 "syllabus/cd.json" 2.

Definition twin_mem : Ast.Mem :=
  Ast.mkMem (<[2 := with_next (fresh_question "State the lemma." 5) 3]>
               (<[3 := fresh_question "State the lemma." 5]> ∅))
            (<[1 := twin_root]> ∅)
            1 None None ∅ ∅ "No such file or directory" [] [].

(* ===================================================================== *)
(** * Properties                                                          *)
(* ===================================================================== *)

(** ** C integers *)

Lemma wrap_int_range (z : Z) : in_int_range (wrap_int z).
Proof.
  unfold in_int_range, wrap_int, INT_MIN, INT_MAX.
  pose proof (Z.mod_pos_bound (z + 2147483648) 4294967296). lia.
Qed.

Lemma wrap_int_id (z : Z) : in_int_range z -> wrap_int z = z.
Proof.
  unfold in_int_range, wrap_int, INT_MIN, INT_MAX. intros Hz.
  rewrite Z.mod_small by lia. lia.
Qed.

Lemma wrap_int_add_l (a b : Z) : wrap_int (wrap_int a + b) = wrap_int (a + b).
Proof.
  unfold wrap_int.
  replace ((a + 2147483648) mod 4294967296 - 2147483648 + b + 2147483648)
    with ((a + 2147483648) mod 4294967296 + b) by lia.
  rewrite Zplus_mod_idemp_l. f_equal. f_equal. lia.
Qed.

(** ** Substrings *)

(** Closes a goal whose first premise equates two different constructors. *)
Ltac absurd_eq := let H := fresh in intros H; discriminate H.

Lemma append_String (c : ascii) (s t : string) : String c s +:+ t = String c (s +:+ t).
Proof. reflexivity. Qed.

Lemma append_Empty (t : string) : EmptyString +:+ t = t.
Proof. reflexivity. Qed.

Lemma append_Empty_r (s : string) : s +:+ EmptyString = s.
Proof.
  induction s as [|c s IH]; [reflexivity|]. rewrite append_String, IH. reflexivity.
Qed.

Lemma prefix_append (needle s : string) :
  String.prefix needle s = true <-> exists after, s = needle +:+ after.
Proof.
  revert s. induction needle as [|c needle IH]; intros s.
  - split; [intros _; exists s; reflexivity | intros _; destruct s; reflexivity].
  - destruct s as [|d s]; simpl.
    + split; [absurd_eq | intros [after H]; rewrite append_String in H; discriminate H].
    + specialize (IH s). destruct (ascii_dec c d) as [->|Hne]; split.
      * intros H. apply IH in H as [after ->]. exists after. reflexivity.
      * intros [after H]. apply IH. exists after.
        rewrite append_String in H. congruence.
      * absurd_eq.
      * intros [after H]. rewrite append_String in H. congruence.
Qed.

Lemma strstr_unfold (haystack needle : string) :
  strstr haystack needle =
  if String.prefix needle haystack then Some haystack
  else match haystack with
       | EmptyString => None
       | String _ rest => strstr rest needle
       end.
Proof. destruct haystack; reflexivity. Qed.

Lemma strstr_Some (haystack needle suffix : string) :
  strstr haystack needle = Some suffix ->
  exists before after, haystack = before +:+ needle +:+ after /\ suffix = needle +:+ after.
Proof.
  revert suffix. induction haystack as [|c h IH]; intros suffix;
    rewrite strstr_unfold; destruct (String.prefix _ _) eqn:Hp.
  - intros [= <-]. apply prefix_append in Hp as [after H].
    exists EmptyString, after. rewrite append_Empty. auto.
  - absurd_eq.
  - intros [= <-]. apply prefix_append in Hp as [after H].
    exists EmptyString, after. rewrite append_Empty. auto.
  - intros H. apply IH in H as (before & after & -> & ->).
    exists (String c before), after. rewrite append_String. auto.
Qed.

Lemma strstr_None (haystack needle : string) :
  strstr haystack needle = None -> ~ occurs_in needle haystack.
Proof.
  induction haystack as [|c h IH];
    rewrite strstr_unfold; destruct (String.prefix _ _) eqn:Hp; try absurd_eq.
  - intros _ (before & after & H).
    destruct before as [|b before].
    + rewrite append_Empty in H.
      assert (String.prefix needle EmptyString = true) by (apply prefix_append; eauto).
      congruence.
    + rewrite append_String in H. discriminate H.
  - intros Hn (before & after & H).
    destruct before as [|b before].
    + rewrite append_Empty in H.
      assert (String.prefix needle (String c h) = true) by (apply prefix_append; eauto).
      congruence.
    + rewrite append_String in H. injection H as _ H.
      apply (IH Hn). exists before, after. exact H.
Qed.

(** [strstr] finds a needle exactly when it occurs in the haystack. *)
Lemma strstr_occurs (haystack needle : string) :
  non_null (strstr haystack needle) = true <-> occurs_in needle haystack.
Proof.
  destruct (strstr haystack needle) as [suffix|] eqn:H; simpl.
  - split; [intros _|reflexivity].
    apply strstr_Some in H as (before & after & H & _). exists before, after. exact H.
  - split; [absurd_eq|]. intros Ho. exfalso. exact (strstr_None _ _ H Ho).
Qed.

#[global] Instance occurs_in_dec (needle text : string) : Decision (occurs_in needle text).
Proof.
  destruct (non_null (strstr text needle)) eqn:H.
  - left. apply strstr_occurs. exact H.
  - right. intros Ho. apply strstr_occurs in Ho. congruence.
Defined.

(** ** The keyword rules *)

Lemma matches_nil (text : string) : matches [] text <-> False.
Proof.
  split; [|tauto]. intros (k & Hk & _). apply elem_of_nil in Hk. exact Hk.
Qed.

Lemma matches_cons (k : string) (ks : list string) (text : string) :
  matches (k :: ks) text <-> occurs_in k text \/ matches ks text.
Proof.
  unfold matches. split.
  - intros (k' & Hk & Ho). apply elem_of_cons in Hk as [->|Hk]; eauto.
  - intros [Ho|(k' & Hk & Ho)].
    + exists k. split; [apply elem_of_cons; auto | exact Ho].
    + exists k'. split; [apply elem_of_cons; auto | exact Ho].
Qed.

#[global] Instance matches_dec (keywords : list string) (text : string) :
  Decision (matches keywords text).
Proof.
  induction keywords as [|k ks IH].
  - right. intros H. apply matches_nil in H. exact H.
  - destruct (decide (occurs_in k text)) as [Ho|Ho].
    + left. apply matches_cons. auto.
    + destruct IH as [Hm|Hm].
      * left. apply matches_cons. auto.
      * right. rewrite matches_cons. tauto.
Defined.

Lemma rule1_test (text : string) :
  non_null (strstr text "define") || non_null (strstr text "state") = true
  <-> matches rule1_keywords text.
Proof.
  unfold rule1_keywords. rewrite !matches_cons, matches_nil, orb_true_iff, !strstr_occurs.
  tauto.
Qed.

Lemma rule2_test (text : string) :
  non_null (strstr text "explain") || non_null (strstr text "prove") = true
  <-> matches rule2_keywords text.
Proof.
  unfold rule2_keywords. rewrite !matches_cons, matches_nil, orb_true_iff, !strstr_occurs.
  tauto.
Qed.

Lemma rule3_test (text : string) :
  non_null (strstr text "design") || non_null (strstr text "construct")
    || non_null (strstr text "optimize") = true
  <-> matches rule3_keywords text.
Proof.
  unfold rule3_keywords. rewrite !matches_cons, matches_nil, !orb_true_iff, !strstr_occurs.
  tauto.
Qed.

(** The four ways through [classify_difficulty]. *)
Lemma classify_difficulty_cases (text : string) :
  (matches rule1_keywords text /\ Semantic.classify_difficulty text = "EASY") \/
  (~ matches rule1_keywords text /\ matches rule2_keywords text /\
     Semantic.classify_difficulty text = "MEDIUM") \/
  (~ matches rule1_keywords text /\ ~ matches rule2_keywords text /\
     matches rule3_keywords text /\ Semantic.classify_difficulty text = "HARD") \/
  (~ matches rule1_keywords text /\ ~ matches rule2_keywords text /\
     ~ matches rule3_keywords text /\ Semantic.classify_difficulty text = "MEDIUM").
Proof.
  unfold Semantic.classify_difficulty.
  rewrite <- rule1_test, <- rule2_test, <- rule3_test.
  destruct (non_null (strstr text "define") || non_null (strstr text "state"));
    [left; auto|].
  destruct (non_null (strstr text "explain") || non_null (strstr text "prove"));
    [right; left; auto|].
  destruct (non_null (strstr text "design") || non_null (strstr text "construct")
            || non_null (strstr text "optimize"));
    [right; right; left; auto|].
  right; right; right; auto.
Qed.

Lemma lower_append (a b : string) : lower (a +:+ b) = lower a +:+ lower b.
Proof.
  induction a as [|c a IH]; [reflexivity|].
  rewrite append_String. simpl. rewrite IH, append_String. reflexivity.
Qed.

Lemma occurs_in_lower (needle text : string) :
  occurs_in needle text -> occurs_in (lower needle) (lower text).
Proof.
  intros (before & after & ->). exists (lower before), (lower after).
  rewrite !lower_append. reflexivity.
Qed.

(** A keyword found character for character is also found when case is
    ignored; the converse fails on every capitalised keyword. *)
Lemma matches_matches_nocase (keywords : list string) (text : string) :
  matches keywords text -> matches_nocase keywords text.
Proof.
  intros (k & Hk & Ho). exists k. split; [exact Hk | apply occurs_in_lower, Ho].
Qed.

(** Proves a decidable closed proposition by running its decision. *)
Ltac by_decision := apply (bool_decide_unpack _); vm_compute; exact I.

(** C1 (as the code has it): the keyword tests are character-for-character
    substring tests, so the case of letters matters. A text is EASY exactly
    when it contains define or state in lower case, and HARD exactly when it
    contains no keyword of the first two rules and one of design, construct,
    optimize in lower case. The two sample texts written in lower case give
    EASY and HARD; with their capital first letter they contain no keyword
    and give the default MEDIUM. *)
Theorem classify_matching_is_case_sensitive :
  (forall text needle : string,
     non_null (strstr text needle) = true <-> occurs_in needle text) /\
  (forall text : string,
     Semantic.classify_difficulty text = "EASY" <-> matches rule1_keywords text) /\
  (forall text : string,
     Semantic.classify_difficulty text = "HARD" <->
     ~ matches rule1_keywords text /\ ~ matches rule2_keywords text /\
     matches rule3_keywords text) /\
  Semantic.classify_difficulty "define compiler and interpreter." = "EASY" /\
  Semantic.classify_difficulty "construct DFA for (a|b)*abb." = "HARD" /\
  Semantic.classify_difficulty "Define compiler and interpreter." = "MEDIUM" /\
  Semantic.classify_difficulty "Construct DFA for (a|b)*abb." = "MEDIUM".
Proof.
  split; [exact strstr_occurs|].
  split.
  { intros text.
    destruct (classify_difficulty_cases text)
      as [[H1 ->]|[(H1 & H2 & ->)|[(H1 & H2 & H3 & ->)|(H1 & H2 & H3 & ->)]]];
      split; try tauto; absurd_eq. }
  split.
  { intros text.
    destruct (classify_difficulty_cases text)
      as [[H1 ->]|[(H1 & H2 & ->)|[(H1 & H2 & H3 & ->)|(H1 & H2 & H3 & ->)]]];
      split; try tauto; absurd_eq. }
  repeat split; reflexivity.
Qed.

(** C1 (as stated) fails: ignoring case, the keyword define occurs in the
    first sample text and construct in the second, yet the classifier gives
    neither EASY nor HARD for them. *)
Lemma classify_case_insensitive_counterexample :
  matches_nocase rule1_keywords "Define compiler and interpreter." /\
  Semantic.classify_difficulty "Define compiler and interpreter." <> "EASY" /\
  matches_nocase rule3_keywords "Construct DFA for (a|b)*abb." /\
  Semantic.classify_difficulty "Construct DFA for (a|b)*abb." <> "HARD".
Proof.
  split; [|split; [|split]].
  - exists "define". split; [set_solver|]. apply strstr_occurs. reflexivity.
  - vm_compute. absurd_eq.
  - exists "construct". split; [set_solver|]. apply strstr_occurs. reflexivity.
  - vm_compute. absurd_eq.
Qed.

Lemma matches_same_occurrences (keywords : list string) (text text' : string) :
  (forall k, k ∈ keywords -> occurs_in k text <-> occurs_in k text') ->
  matches keywords text <-> matches keywords text'.
Proof.
  intros H. unfold matches.
  split; intros (k & Hk & Ho); exists k; (split; [exact Hk|]); apply (H k Hk), Ho.
Qed.

(** C3 (as the code has it): the classification is a function of the text
    alone, and of the text only through the keywords that occur in it
    character for character: two texts in which the same keywords occur,
    and so any two equal texts, get the same tier. The tests are tried in a
    fixed order: a text with a keyword of rule 1 is EASY whatever else it
    contains, a text without one but with a keyword of rule 2 is MEDIUM
    whatever rule 3 says, and only a text without a keyword of rules 1 and
    2 can be HARD by rule 3. *)
Theorem classify_rule_order (text text' : string) :
  (forall k, k ∈ rule1_keywords ++ rule2_keywords ++ rule3_keywords ->
     occurs_in k text <-> occurs_in k text') ->
  Semantic.classify_difficulty text = Semantic.classify_difficulty text' /\
  (matches rule1_keywords text -> Semantic.classify_difficulty text = "EASY") /\
  (~ matches rule1_keywords text -> matches rule2_keywords text ->
     Semantic.classify_difficulty text = "MEDIUM") /\
  (~ matches rule1_keywords text -> ~ matches rule2_keywords text ->
     matches rule3_keywords text -> Semantic.classify_difficulty text = "HARD").
Proof.
  intros Hsame.
  assert (E1 : matches rule1_keywords text <-> matches rule1_keywords text').
  { apply matches_same_occurrences. intros k Hk. apply Hsame.
    rewrite !elem_of_app. auto. }
  assert (E2 : matches rule2_keywords text <-> matches rule2_keywords text').
  { apply matches_same_occurrences. intros k Hk. apply Hsame.
    rewrite !elem_of_app. auto. }
  assert (E3 : matches rule3_keywords text <-> matches rule3_keywords text').
  { apply matches_same_occurrences. intros k Hk. apply Hsame.
    rewrite !elem_of_app. auto. }
  destruct (classify_difficulty_cases text)
    as [[H1 ->]|[(H1 & H2 & ->)|[(H1 & H2 & H3 & ->)|(H1 & H2 & H3 & ->)]]];
  destruct (classify_difficulty_cases text')
    as [[H1' ->]|[(H1' & H2' & ->)|[(H1' & H2' & H3' & ->)|(H1' & H2' & H3' & ->)]]];
  tauto.
Qed.

(** The three keyword sets all occur in the first two texts, which are
    not equal, the last two sets in the third text, and the earliest rule
    decides each time. *)
Lemma classify_rule_order_witness :
  Semantic.classify_difficulty "define, explain and design a parser."
    = Semantic.classify_difficulty "design a parser, then explain and define it." /\
  Semantic.classify_difficulty "define, explain and design a parser." = "EASY" /\
  Semantic.classify_difficulty "explain the phases of compiler design." = "MEDIUM".
Proof.
  destruct (classify_rule_order "define, explain and design a parser."
              "design a parser, then explain and define it.")
    as (Hsame & Hrule1 & _ & _).
  { intros k Hk. cbn [rule1_keywords rule2_keywords rule3_keywords app] in Hk.
    repeat (apply elem_of_cons in Hk as [->|Hk]); [by_decision ..|].
    apply elem_of_nil in Hk. destruct Hk. }
  destruct (classify_rule_order "explain the phases of compiler design."
              "explain the phases of compiler design.")
    as (_ & _ & Hrule2 & _).
  { intros k _. reflexivity. }
  split; [exact Hsame|].
  split; [apply Hrule1; by_decision | apply Hrule2; by_decision].
Defined.

Lemma matches_nocase_cons (k : string) (ks : list string) (text : string) :
  matches_nocase (k :: ks) text
  <-> occurs_in (lower k) (lower text) \/ matches_nocase ks text.
Proof.
  unfold matches_nocase. split.
  - intros (k' & Hk & Ho). apply elem_of_cons in Hk as [->|Hk]; eauto.
  - intros [Ho|(k' & Hk & Ho)].
    + exists k. split; [apply elem_of_cons; auto | exact Ho].
    + exists k'. split; [apply elem_of_cons; auto | exact Ho].
Qed.

Lemma matches_nocase_nil (text : string) : matches_nocase [] text <-> False.
Proof.
  split; [|tauto]. intros (k & Hk & _). apply elem_of_nil in Hk. exact Hk.
Qed.

(** C3 (as stated) fails when a keyword is taken to occur as the
    specification matches keywords, with the case of letters ignored. In
    the second question of the example of semantic.c no keyword of rule 1
    occurs, explain of rule 2 occurs with a capital letter and design of
    rule 3 in lower case; the earliest rule with a keyword in the text is
    rule 2, yet the classifier gives HARD by rule 3 and not MEDIUM. *)
Lemma classify_rule_order_nocase_counterexample :
  Semantic.text sample_q2 = "Explain the phases of compiler design." /\
  ~ matches_nocase rule1_keywords (Semantic.text sample_q2) /\
  matches_nocase rule2_keywords (Semantic.text sample_q2) /\
  matches_nocase rule3_keywords (Semantic.text sample_q2) /\
  Semantic.classify_difficulty (Semantic.text sample_q2) = "HARD" /\
  Semantic.classify_difficulty (Semantic.text sample_q2) <> "MEDIUM".
Proof.
  split; [reflexivity|]. split; [|split; [|split; [|split]]].
  - unfold rule1_keywords. rewrite !matches_nocase_cons, matches_nocase_nil.
    intros [H|[H|[]]]; revert H; by_decision.
  - exists "explain". split; [set_solver|]. by_decision.
  - exists "design". split; [set_solver|]. by_decision.
  - vm_compute. reflexivity.
  - vm_compute. absurd_eq.
Qed.

(** C4: the classifier returns a tier for every text, never the unset
    placeholder and never an empty string, and a text that matches none of
    the three rules gets the default MEDIUM, whether the rules are read
    character for character or with case ignored. *)
Theorem classify_total_with_fallback (text : string) :
  (Semantic.classify_difficulty text = "EASY" \/
   Semantic.classify_difficulty text = "MEDIUM" \/
   Semantic.classify_difficulty text = "HARD") /\
  ~ unset_text (Semantic.classify_difficulty text) /\
  Semantic.classify_difficulty text <> EmptyString /\
  (~ matches rule1_keywords text -> ~ matches rule2_keywords text ->
   ~ matches rule3_keywords text -> Semantic.classify_difficulty text = "MEDIUM") /\
  (~ matches_nocase rule1_keywords text -> ~ matches_nocase rule2_keywords text ->
   ~ matches_nocase rule3_keywords text -> Semantic.classify_difficulty text = "MEDIUM").
Proof.
  unfold unset_text.
  destruct (classify_difficulty_cases text)
    as [[H1 ->]|[(H1 & H2 & ->)|[(H1 & H2 & H3 & ->)|(H1 & H2 & H3 & ->)]]];
    (split; [tauto|]); (split; [absurd_eq|]); (split; [absurd_eq|]);
    split; try tauto; intros N1 N2 N3; exfalso;
    auto using matches_matches_nocase.
Qed.

(** The sample text of the design: no keyword occurs in it. *)
Lemma classify_total_with_fallback_witness :
  Semantic.classify_difficulty "Summarize the topic." = "MEDIUM".
Proof.
  destruct (classify_total_with_fallback "Summarize the topic.")
    as (_ & _ & _ & Hfallback & _).
  apply Hfallback; by_decision.
Defined.

(** ** Running the monad *)

Lemma bind_run {S A B : Type} (m : M S A) (k : A -> M S B) (s : S) :
  (m ≫= k) s =
  match m s with
  | Done a s' => k a s'
  | Fault => Fault
  | OutOfFuel => OutOfFuel
  end.
Proof. reflexivity. Qed.

Lemma bind_Done {S A B : Type} (m : M S A) (k : A -> M S B) (s s'' : S) (b : B) :
  (m ≫= k) s = Done b s'' <-> exists a s', m s = Done a s' /\ k a s' = Done b s''.
Proof.
  rewrite bind_run. destruct (m s) as [a s'| |].
  - split; [eauto|]. intros (a' & s0 & [= -> ->] & H). exact H.
  - split; [absurd_eq|]. intros (a' & s0 & H & _). discriminate H.
  - split; [absurd_eq|]. intros (a' & s0 & H & _). discriminate H.
Qed.

(** ** The marks validator *)

Lemma sum_of_marks_cons (q : Semantic.Question) (qs : list Semantic.Question) :
  sum_of_marks (q :: qs) = Semantic.marks q + sum_of_marks qs.
Proof. reflexivity. Qed.

(** The loop only reads: whenever it finishes, the state is the one it
    started from. *)
Lemma sum_loop_frame (fuel : nat) (ptr sum : Z) (s s' : Semantic.State) (r : Z) :
  Semantic.sum_loop fuel ptr sum s = Done r s' -> s' = s.
Proof.
  revert ptr sum. induction fuel as [|fuel IH]; intros ptr sum; simpl.
  - absurd_eq.
  - destruct (decide (ptr = NULL)) as [_|_].
    + intros [= _ ->]. reflexivity.
    + rewrite bind_run. unfold Semantic.load.
      destruct (Semantic.heap s !! ptr) as [q|]; [apply IH | absurd_eq].
Qed.

(** On a well-formed list the loop finishes as soon as the budget exceeds
    the length, with the marks added one by one in [int] arithmetic. *)
Lemma sum_loop_is_list (qs : list Semantic.Question) (h : gmap Z Semantic.Question)
    (out : list string) (ptr sum : Z) (fuel : nat) :
  is_list Semantic.next h ptr qs -> (length qs < fuel)%nat ->
  Semantic.sum_loop fuel ptr sum (Semantic.mkState h out) =
  Done (foldl (fun a q => wrap_int (a + Semantic.marks q)) sum qs) (Semantic.mkState h out).
Proof.
  revert ptr sum fuel. induction qs as [|q qs IH]; intros ptr sum fuel Hl Hf;
    (destruct fuel as [|fuel]; [simpl in Hf; lia|]); simpl in *.
  - subst ptr. destruct (decide (NULL = NULL)); [reflexivity | congruence].
  - destruct Hl as (Hp & Hq & Hl).
    destruct (decide (ptr = NULL)); [congruence|].
    rewrite bind_run. unfold Semantic.load. simpl. rewrite Hq.
    apply IH; [exact Hl | lia].
Qed.

Lemma foldl_wrap_int (qs : list Semantic.Question) (sum : Z) :
  in_int_range sum ->
  foldl (fun a q => wrap_int (a + Semantic.marks q)) sum qs
  = wrap_int (sum + sum_of_marks qs).
Proof.
  revert sum. induction qs as [|q qs IH]; intros sum Hr; simpl.
  - unfold sum_of_marks. simpl. rewrite Z.add_0_r. symmetry. apply wrap_int_id, Hr.
  - rewrite IH by apply wrap_int_range.
    rewrite wrap_int_add_l, sum_of_marks_cons. f_equal. lia.
Qed.

Lemma sum_of_marks_perm (qs qs' : list Semantic.Question) :
  Permutation (Semantic.marks <$> qs) (Semantic.marks <$> qs') ->
  sum_of_marks qs = sum_of_marks qs'.
Proof.
  unfold sum_of_marks. generalize (Semantic.marks <$> qs), (Semantic.marks <$> qs').
  intros l l' Hp. induction Hp; simpl; lia.
Qed.

(** What [validate_marks] does once its loop has produced [sum]. *)
Lemma validate_marks_run (fuel : nat) (head declared_total sum : Z) (s : Semantic.State) :
  Semantic.sum_loop fuel head 0 s = Done sum s ->
  exists chunk,
    Semantic.validate_marks fuel head declared_total s =
    Done (if decide (sum = declared_total) then 1 else 0)
         (Semantic.mkState (Semantic.heap s) (Semantic.stdout s ++ [chunk])).
Proof.
  intros Hloop. unfold Semantic.validate_marks. rewrite bind_run, Hloop.
  destruct (decide (sum = declared_total)); eexists; reflexivity.
Qed.

(** On a well-formed list the loop finishes with the arithmetic sum of the
    marks reduced to an [int]. *)
Lemma sum_loop_total (h : gmap Z Semantic.Question) (out : list string)
    (head : Z) (qs : list Semantic.Question) (fuel : nat) :
  is_list Semantic.next h head qs -> (length qs < fuel)%nat ->
  Semantic.sum_loop fuel head 0 (Semantic.mkState h out)
  = Done (wrap_int (sum_of_marks qs)) (Semantic.mkState h out).
Proof.
  intros Hl Hf. rewrite (sum_loop_is_list qs) by assumption.
  rewrite foldl_wrap_int; [reflexivity|].
  unfold in_int_range, INT_MIN, INT_MAX; lia.
Qed.

(** On a well-formed list the validator finishes, writes one chunk and
    leaves the memory alone. *)
Lemma validate_marks_total (h : gmap Z Semantic.Question) (out : list string)
    (head : Z) (qs : list Semantic.Question) (declared_total : Z) (fuel : nat) :
  is_list Semantic.next h head qs -> (length qs < fuel)%nat ->
  exists chunk,
    Semantic.validate_marks fuel head declared_total (Semantic.mkState h out)
    = Done (if decide (wrap_int (sum_of_marks qs) = declared_total) then 1 else 0)
           (Semantic.mkState h (out ++ [chunk])).
Proof.
  intros Hl Hf.
  apply (validate_marks_run fuel head declared_total (wrap_int (sum_of_marks qs))
           (Semantic.mkState h out)).
  apply sum_loop_total; assumption.
Qed.

(** C2 (as the code has it): on every well-formed question list the
    validator finishes and computes the arithmetic sum of the marks reduced
    to a 32-bit [int], which is the arithmetic sum itself whenever that sum
    is in the [int] range; the computed sum is the same for every list with
    the same marks in another order; the flag is 1 exactly when the computed
    sum equals the declared total and 0 otherwise, so a declared total of 0
    is a match exactly when the computed sum is 0. *)
Theorem validate_marks_sum (h : gmap Z Semantic.Question) (out : list string)
    (head : Z) (qs : list Semantic.Question) (declared_total : Z) (fuel : nat) :
  is_list Semantic.next h head qs -> (length qs < fuel)%nat ->
  let sum := wrap_int (sum_of_marks qs) in
  Semantic.sum_loop fuel head 0 (Semantic.mkState h out) = Done sum (Semantic.mkState h out) /\
  (in_int_range (sum_of_marks qs) -> sum = sum_of_marks qs) /\
  (forall h' out' head' qs' fuel',
     is_list Semantic.next h' head' qs' -> (length qs' < fuel')%nat ->
     Permutation (Semantic.marks <$> qs') (Semantic.marks <$> qs) ->
     Semantic.sum_loop fuel' head' 0 (Semantic.mkState h' out')
     = Done sum (Semantic.mkState h' out')) /\
  exists flag chunk,
    Semantic.validate_marks fuel head declared_total (Semantic.mkState h out)
    = Done flag (Semantic.mkState h (out ++ [chunk])) /\
    (flag = 1 <-> sum = declared_total) /\
    (flag = 0 <-> sum <> declared_total) /\
    (declared_total = 0 -> (flag = 1 <-> sum = 0)).
Proof.
  intros Hl Hf sum.
  split; [apply sum_loop_total; assumption|].
  split; [apply wrap_int_id|].
  split.
  { intros h' out' head' qs' fuel' Hl' Hf' Hp.
    rewrite (sum_loop_total h' out' head' qs' fuel' Hl' Hf'). unfold sum.
    rewrite (sum_of_marks_perm qs' qs Hp). reflexivity. }
  destruct (validate_marks_total h out head qs declared_total fuel Hl Hf)
    as [chunk Hrun].
  exists (if decide (sum = declared_total) then 1 else 0), chunk.
  split; [exact Hrun|].
  destruct (decide (sum = declared_total)) as [He|Hne].
  - repeat split; intros; try tauto; try lia.
  - repeat split; intros; try tauto; try lia.
Qed.

(** The list of the example of semantic.c: marks 10, 10 and 12 against the
    declared total 32. *)
Lemma validate_marks_sum_witness :
  Semantic.sum_loop 4 1 0 (Semantic.mkState sample_heap []) =
    Done 32 (Semantic.mkState sample_heap []) /\
  exists flag chunk,
    Semantic.validate_marks 4 1 32 (Semantic.mkState sample_heap [])
    = Done flag (Semantic.mkState sample_heap [chunk]) /\ flag = 1.
Proof.
  assert (Hl : is_list Semantic.next sample_heap 1 [sample_q1; sample_q2; sample_q3])
    by (vm_compute; repeat split; absurd_eq).
  assert (Hf : (length [sample_q1; sample_q2; sample_q3] < 4)%nat) by (simpl; lia).
  destruct (validate_marks_sum sample_heap [] 1 [sample_q1; sample_q2; sample_q3] 32 4 Hl Hf)
    as (Hsum & _ & _ & flag & chunk & Hrun & Hflag & _).
  split; [exact Hsum|].
  exists flag, chunk. split; [exact Hrun|]. apply Hflag. reflexivity.
Defined.

(** C2 (as stated) fails: the three marks 2147483647, 2147483647 and 2 add
    up to 4294967296, the validator computes 0, and it reports a match with
    the declared total 0. *)
Lemma validate_marks_overflow_counterexample :
  is_list Semantic.next large_heap 1 [large_q1; large_q2; large_q3] /\
  sum_of_marks [large_q1; large_q2; large_q3] = 4294967296 /\
  Semantic.sum_loop 4 1 0 (Semantic.mkState large_heap []) =
    Done 0 (Semantic.mkState large_heap []) /\
  exists chunk,
    Semantic.validate_marks 4 1 0 (Semantic.mkState large_heap []) =
    Done 1 (Semantic.mkState large_heap [chunk]).
Proof.
  split; [vm_compute; repeat split; absurd_eq|].
  split; [reflexivity|].
  split; [vm_compute; reflexivity|].
  eexists. vm_compute. reflexivity.
Qed.

(** C9: a run of the validator that finishes leaves the memory of the
    questions as it found it, and on every well-formed list it does finish:
    the same objects, with the same marks and fields, are linked in the
    same order afterwards. Its only effect is one chunk on standard output. *)
Theorem validate_marks_reads_only (fuel : nat) (head declared_total : Z)
    (s : Semantic.State) :
  (forall flag s',
     Semantic.validate_marks fuel head declared_total s = Done flag s' ->
     Semantic.heap s' = Semantic.heap s /\
     exists chunk, Semantic.stdout s' = Semantic.stdout s ++ [chunk]) /\
  (forall qs,
     is_list Semantic.next (Semantic.heap s) head qs -> (length qs < fuel)%nat ->
     exists flag s',
       Semantic.validate_marks fuel head declared_total s = Done flag s' /\
       Semantic.heap s' = Semantic.heap s /\
       is_list Semantic.next (Semantic.heap s') head qs).
Proof.
  split.
  - intros flag s' Hrun. unfold Semantic.validate_marks in Hrun.
    apply bind_Done in Hrun as (sum & s1 & Hloop & Hrest).
    apply sum_loop_frame in Hloop as ->.
    destruct (decide (sum = declared_total)); injection Hrest as _ <-;
      (split; [reflexivity | eexists; reflexivity]).
  - intros qs Hl Hf. destruct s as [h out]. simpl in Hl.
    destruct (validate_marks_total h out head qs declared_total fuel Hl Hf)
      as [chunk Hrun].
    eexists _, (Semantic.mkState h (out ++ [chunk])).
    split; [exact Hrun|]. split; [reflexivity | exact Hl].
Qed.

Lemma validate_marks_reads_only_witness :
  exists flag s',
    Semantic.validate_marks 4 1 30 (Semantic.mkState sample_heap []) = Done flag s' /\
    Semantic.heap s' = sample_heap /\
    is_list Semantic.next (Semantic.heap s') 1 [sample_q1; sample_q2; sample_q3].
Proof.
  destruct (validate_marks_reads_only 4 1 30 (Semantic.mkState sample_heap []))
    as [_ Hlist].
  apply Hlist.
  - vm_compute; repeat split; absurd_eq.
  - simpl; lia.
Defined.

(** C10: on the empty list, the [NULL] head, the validator finishes with
    the sum 0 whatever the declared total is, and its flag is 1 exactly
    when the declared total is 0. *)
Theorem validate_marks_empty_list (fuel : nat) (declared_total : Z) (s : Semantic.State) :
  is_list Semantic.next (Semantic.heap s) NULL [] /\
  Semantic.sum_loop (Datatypes.S fuel) NULL 0 s = Done 0 s /\
  exists flag chunk,
    Semantic.validate_marks (Datatypes.S fuel) NULL declared_total s
    = Done flag (Semantic.mkState (Semantic.heap s) (Semantic.stdout s ++ [chunk])) /\
    (flag = 1 <-> declared_total = 0) /\
    (flag = 0 <-> declared_total <> 0).
Proof.
  split; [reflexivity|].
  assert (Hloop : Semantic.sum_loop (Datatypes.S fuel) NULL 0 s = Done 0 s).
  { simpl. destruct (decide (NULL = NULL)); [reflexivity | congruence]. }
  split; [exact Hloop|].
  destruct (validate_marks_run (Datatypes.S fuel) NULL declared_total 0 s Hloop)
    as [chunk Hrun].
  exists (if decide (0 = declared_total) then 1 else 0), chunk.
  split; [exact Hrun|].
  destruct (decide (0 = declared_total)); split; split; intros; try lia; try congruence.
Qed.

(** ** Node construction *)

Lemma unused_spec (m : Ast.Mem) :
  Ast.unused m <> NULL /\ Ast.qnodes m !! Ast.unused m = None /\
  Ast.anodes m !! Ast.unused m = None.
Proof.
  unfold Ast.unused.
  pose proof (is_fresh ({[NULL]} ∪ dom (Ast.qnodes m) ∪ dom (Ast.anodes m))) as Hfresh.
  split; [|split].
  - intros Heq. apply Hfresh. rewrite Heq. set_solver.
  - apply not_elem_of_dom. set_solver.
  - apply not_elem_of_dom. set_solver.
Qed.

(** C6 (as the code has it): a freshly created question lives at a new
    address, keeps the text and the marks it was given, has the placeholder
    N/A as difficulty, syllabus topic and Bloom's level, an estimated time
    of 0, no successor, and the status flag 0, which is the status OK. *)
Theorem create_question_node_fields (text : string) (marks : Z) (m : Ast.Mem) :
  exists p q,
    Ast.create_question_node text marks m
      = Done p (Ast.set_qnodes (<[p := q]> (Ast.qnodes m)) m) /\
    p <> NULL /\ Ast.qnodes m !! p = None /\ Ast.anodes m !! p = None /\
    Ast.text q = text /\ Ast.marks q = marks /\
    unset_text (Ast.difficulty q) /\
    unset_text (Ast.syllabus_topic q) /\
    unset_text (Ast.blooms_level q) /\
    Ast.estimated_time q = 0 /\
    Ast.status_flag q = Ast.STATUS_OK /\
    Ast.status_of_flag (Ast.status_flag q) = Some Ast.OK /\
    Ast.next q = NULL.
Proof.
  destruct (unused_spec m) as (Hnull & Hq & Ha).
  eexists (Ast.unused m), _. split; [reflexivity|].
  repeat split; assumption.
Qed.

(** C6 (as stated) fails for the status: the question created in an empty
    memory has a status flag with a meaning, OK, not an unset one. *)
Lemma create_question_node_status_counterexample :
  exists p m' q,
    Ast.create_question_node "Define compiler and interpreter." 10 empty_mem = Done p m' /\
    Ast.qnodes m' !! p = Some q /\
    Ast.status_of_flag (Ast.status_flag q) = Some Ast.OK /\
    ~ unset_status (Ast.status_flag q).
Proof.
  eexists _, _, _. split; [reflexivity|].
  split; [vm_compute; reflexivity|].
  split; [reflexivity|]. unfold unset_status. vm_compute. absurd_eq.
Qed.

(** ** The exporter *)

Lemma write_file_id (path : string) (content : list string) (m : Ast.Mem) :
  Ast.files m !! path = Some content -> write_file path content m = m.
Proof.
  intros H. destruct m. unfold write_file, Ast.set_files. simpl in *.
  rewrite insert_id by exact H. reflexivity.
Qed.

Lemma write_file_twice (path : string) (c1 c2 : list string) (m : Ast.Mem) :
  write_file path c2 (write_file path c1 m) = write_file path c2 m.
Proof.
  unfold write_file, Ast.set_files. simpl. rewrite insert_insert_eq. reflexivity.
Qed.

Lemma write_file_lookup (path : string) (content : list string) (m : Ast.Mem) :
  Ast.files (write_file path content m) !! path = Some content.
Proof. unfold write_file. simpl. apply lookup_insert_eq. Qed.

Lemma fprintf_run (path chunk : string) (old : list string) (m : Ast.Mem) :
  Ast.files m !! path = Some old ->
  Ast.fprintf path chunk m = Done tt (write_file path (old ++ [chunk]) m).
Proof. intros H. unfold Ast.fprintf, write_file. rewrite H. reflexivity. Qed.

(** On a well-formed list the loop finishes within a budget above the
    length, and appends the statements of the questions to the file. *)
Lemma export_loop_is_list (ns : list Ast.QuestionNode) (m : Ast.Mem) (f : string)
    (old : list string) (q i : Z) (fuel : nat) :
  is_list Ast.next (Ast.qnodes m) q ns -> (length ns < fuel)%nat ->
  Ast.files m !! f = Some old ->
  Ast.export_loop fuel f q i m = Done tt (write_file f (old ++ question_stmts i ns) m).
Proof.
  revert m old q i fuel. induction ns as [|n ns IH]; intros m old q i fuel Hl Hf Hold;
    (destruct fuel as [|fuel]; [simpl in Hf; lia|]); simpl in *.
  - subst q. destruct (decide (NULL <> NULL)); [congruence|].
    rewrite app_nil_r, write_file_id by exact Hold. reflexivity.
  - destruct Hl as (Hq & Hn & Hl). destruct (decide (q <> NULL)); [|tauto].
    rewrite bind_run. unfold Ast.load_q. rewrite Hn.
    rewrite bind_run, (fprintf_run _ _ old) by exact Hold.
    rewrite bind_run, (fprintf_run _ _ _ _ (write_file_lookup _ _ _)).
    rewrite write_file_twice.
    rewrite (IH _ ((old ++ [Ast.question_stmt i (Ast.marks n)]) ++ [Ast.edge_stmt i]));
      [| exact Hl | lia | apply write_file_lookup].
    rewrite write_file_twice. f_equal. f_equal.
    rewrite <- !app_assoc. reflexivity.
Qed.

Lemma is_question_node_stmt (i marks : Z) :
  is_question_node (Ast.question_stmt i marks) = true.
Proof. apply prefix_append. eexists. reflexivity. Qed.

Lemma is_root_edge_stmt (i : Z) : is_root_edge (Ast.edge_stmt i) = true.
Proof. apply prefix_append. eexists. reflexivity. Qed.

Lemma is_root_node_stmt (subject : string) (total_marks total_time : Z) :
  is_root_node (Ast.root_stmt subject total_marks total_time) = true.
Proof. apply prefix_append. eexists. reflexivity. Qed.

Lemma question_nodes_of_stmts (ns : list Ast.QuestionNode) (k0 : nat) :
  List.filter is_question_node (question_stmts (wrap_int (Z.of_nat k0)) ns)
  = imap (fun k n => Ast.question_stmt (wrap_int (Z.of_nat (k0 + k))) (Ast.marks n)) ns.
Proof.
  revert k0. induction ns as [|n ns IH]; intros k0; [reflexivity|].
  cbn [question_stmts List.filter imap].
  rewrite is_question_node_stmt.
  change (is_question_node (Ast.edge_stmt (wrap_int (Z.of_nat k0)))) with false.
  cbv iota. rewrite Nat.add_0_r. f_equal.
  rewrite wrap_int_add_l.
  replace (Z.of_nat k0 + 1) with (Z.of_nat (Datatypes.S k0)) by lia.
  rewrite IH. apply imap_ext. intros k n' _. simpl. do 2 f_equal. lia.
Qed.

Lemma root_edges_of_stmts (ns : list Ast.QuestionNode) (k0 : nat) :
  List.filter is_root_edge (question_stmts (wrap_int (Z.of_nat k0)) ns)
  = imap (fun k _ => Ast.edge_stmt (wrap_int (Z.of_nat (k0 + k)))) ns.
Proof.
  revert k0. induction ns as [|n ns IH]; intros k0; [reflexivity|].
  cbn [question_stmts List.filter imap].
  change (is_root_edge (Ast.question_stmt (wrap_int (Z.of_nat k0)) (Ast.marks n)))
    with false.
  rewrite is_root_edge_stmt.
  cbv iota. rewrite Nat.add_0_r. f_equal.
  rewrite wrap_int_add_l.
  replace (Z.of_nat k0 + 1) with (Z.of_nat (Datatypes.S k0)) by lia.
  rewrite IH. apply imap_ext. intros k n' _. simpl. do 2 f_equal. lia.
Qed.

Lemma root_nodes_of_stmts (ns : list Ast.QuestionNode) (i : Z) :
  List.filter is_root_node (question_stmts i ns) = [].
Proof.
  revert i. induction ns as [|n ns IH]; intros i; [reflexivity|].
  cbn [question_stmts List.filter].
  change (is_root_node (Ast.question_stmt i (Ast.marks n))) with false.
  change (is_root_node (Ast.edge_stmt i)) with false.
  cbv iota. apply IH.
Qed.

Lemma bind_step {S A B : Type} (m : M S A) (k : A -> M S B) (s s' : S) (a : A) :
  m s = Done a s' -> (m ≫= k) s = k a s'.
Proof. intros H. rewrite bind_run, H. reflexivity. Qed.

(** Runs the first command of a sequence with the equation [lem]. *)
Ltac run_step lem :=
  erewrite bind_step by (apply lem; eauto using write_file_lookup); cbv beta.

Lemma printf_run (chunk : string) (m : Ast.Mem) :
  Ast.printf chunk m = Done tt (Ast.set_stdout (Ast.stdout m ++ [chunk]) m).
Proof. reflexivity. Qed.

Lemma fopen_w_run (path : string) (m : Ast.Mem) :
  path ∉ Ast.no_write m -> Ast.fopen_w path m = Done true (write_file path [] m).
Proof.
  intros H. unfold Ast.fopen_w. destruct (decide (path ∈ Ast.no_write m)); tauto.
Qed.

Lemma fopen_w_fails (path : string) (m : Ast.Mem) :
  path ∈ Ast.no_write m -> Ast.fopen_w path m = Done false m.
Proof.
  intros H. unfold Ast.fopen_w. destruct (decide (path ∈ Ast.no_write m)); tauto.
Qed.

Lemma load_a_run (p : Z) (r : Ast.ASTNode) (m : Ast.Mem) :
  Ast.anodes m !! p = Some r -> Ast.load_a p m = Done r m.
Proof. intros H. unfold Ast.load_a. rewrite H. reflexivity. Qed.

(** The run of the exporter on a document whose file can be opened. *)
Lemma export_ast_to_dot_run (m : Ast.Mem) (root : Z) (r : Ast.ASTNode)
    (ns : list Ast.QuestionNode) (filepath : string) (fuel : nat) :
  Ast.anodes m !! root = Some r ->
  is_list Ast.next (Ast.qnodes m) (Ast.questions r) ns ->
  filepath ∉ Ast.no_write m ->
  (length ns < fuel)%nat ->
  Ast.export_ast_to_dot fuel root filepath m
  = Done tt (write_file filepath (dot_file r ns)
               (Ast.set_stdout
                  (Ast.stdout m ++ ["AST Helper: Exporting AST to " +:+ filepath +:+ nl]) m)).
Proof.
  intros Hroot Hl Hw Hf. unfold Ast.export_ast_to_dot.
  run_step printf_run.
  run_step fopen_w_run. cbn [negb].
  run_step fprintf_run. rewrite write_file_twice.
  run_step fprintf_run. rewrite write_file_twice.
  run_step load_a_run.
  run_step fprintf_run. rewrite write_file_twice.
  run_step export_loop_is_list. rewrite write_file_twice.
  run_step fprintf_run. rewrite write_file_twice.
  unfold Ast.fclose, dot_file. simpl. reflexivity.
Qed.

(** C5 (as the code has it): when the output file can be opened, the
    exporter finishes on every document with a well-formed question list
    and the file holds exactly the statements of [dot_file]: one root node,
    one node per question in list order with the identifiers q0, q1, ...
    counted in an [int], and one edge from the root to each of them. The
    label of a question node holds the marks of the question. *)
Theorem export_ast_to_dot_shape (m : Ast.Mem) (root : Z) (r : Ast.ASTNode)
    (ns : list Ast.QuestionNode) (filepath : string) (fuel : nat) :
  Ast.anodes m !! root = Some r ->
  is_list Ast.next (Ast.qnodes m) (Ast.questions r) ns ->
  filepath ∉ Ast.no_write m ->
  (length ns < fuel)%nat ->
  let out := dot_file r ns in
  (exists m', Ast.export_ast_to_dot fuel root filepath m = Done tt m' /\
              Ast.files m' !! filepath = Some out /\
              Ast.qnodes m' = Ast.qnodes m /\ Ast.anodes m' = Ast.anodes m) /\
  List.filter is_root_node out
    = [Ast.root_stmt (Ast.subject r) (Ast.total_marks r) (Ast.total_time r)] /\
  List.filter is_question_node out
    = imap (fun k n => Ast.question_stmt (wrap_int (Z.of_nat k)) (Ast.marks n)) ns /\
  List.filter is_root_edge out
    = imap (fun k _ => Ast.edge_stmt (wrap_int (Z.of_nat k))) ns /\
  length (List.filter is_question_node out) = length ns /\
  length (List.filter is_root_edge out) = length ns /\
  (Z.of_nat (length ns) <= 2147483648 ->
   List.filter is_question_node out
     = imap (fun k n => Ast.question_stmt (Z.of_nat k) (Ast.marks n)) ns) /\
  (forall n, n ∈ ns -> occurs_in (fmt_d (Ast.marks n)) (Ast.question_label (Ast.marks n))).
Proof.
  intros Hroot Hl Hw Hf out.
  assert (Hq : List.filter is_question_node out
    = imap (fun k n => Ast.question_stmt (wrap_int (Z.of_nat k)) (Ast.marks n)) ns).
  { unfold out, dot_file. rewrite !List.filter_app.
    change 0 with (wrap_int (Z.of_nat 0)). rewrite question_nodes_of_stmts.
    cbn [List.filter]. rewrite is_question_node_stmt || idtac.
    change (is_question_node Ast.dot_open) with false.
    change (is_question_node Ast.dot_defaults) with false.
    change (is_question_node Ast.dot_close) with false.
    change (is_question_node (Ast.root_stmt (Ast.subject r) (Ast.total_marks r)
                                (Ast.total_time r))) with false.
    cbv iota. rewrite app_nil_r. reflexivity. }
  assert (He : List.filter is_root_edge out
    = imap (fun k _ => Ast.edge_stmt (wrap_int (Z.of_nat k))) ns).
  { unfold out, dot_file. rewrite !List.filter_app.
    change 0 with (wrap_int (Z.of_nat 0)). rewrite root_edges_of_stmts.
    cbn [List.filter].
    change (is_root_edge Ast.dot_open) with false.
    change (is_root_edge Ast.dot_defaults) with false.
    change (is_root_edge Ast.dot_close) with false.
    change (is_root_edge (Ast.root_stmt (Ast.subject r) (Ast.total_marks r)
                            (Ast.total_time r))) with false.
    cbv iota. rewrite app_nil_r. reflexivity. }
  split.
  { eexists. split; [apply (export_ast_to_dot_run m root r ns); assumption|].
    split; [apply write_file_lookup|]. split; reflexivity. }
  split.
  { unfold out, dot_file. rewrite !List.filter_app, root_nodes_of_stmts.
    cbn [List.filter]. rewrite is_root_node_stmt.
    change (is_root_node Ast.dot_open) with false.
    change (is_root_node Ast.dot_defaults) with false.
    change (is_root_node Ast.dot_close) with false.
    reflexivity. }
  split; [exact Hq|]. split; [exact He|].
  split; [rewrite Hq; apply length_imap|].
  split; [rewrite He; apply length_imap|].
  split.
  { intros Hsmall. rewrite Hq. apply imap_ext. intros k n Hk. simpl.
    apply lookup_lt_Some in Hk. rewrite wrap_int_id; [reflexivity|].
    unfold in_int_range, INT_MIN, INT_MAX. lia. }
  intros n _. exists ("Q_TEXT: " +:+ "TODO: Substring" +:+ "..." +:+ bsn +:+ "Q_MARKS: "),
    EmptyString.
  rewrite append_Empty_r. reflexivity.
Qed.

(** The sample document of two questions, exported to the file of a job. *)
Lemma export_ast_to_dot_shape_witness :
  (exists m',
     Ast.export_ast_to_dot 3 1 "jobs/j1/ast.dot" paper_mem = Done tt m' /\
     Ast.files m' !! "jobs/j1/ast.dot" = Some (dot_file paper_root [paper_q1; paper_q2]) /\
     Ast.qnodes m' = Ast.qnodes paper_mem /\ Ast.anodes m' = Ast.anodes paper_mem) /\
  List.filter is_question_node (dot_file paper_root [paper_q1; paper_q2])
    = [Ast.question_stmt 0 10; Ast.question_stmt 1 5] /\
  List.filter is_root_edge (dot_file paper_root [paper_q1; paper_q2])
    = [Ast.edge_stmt 0; Ast.edge_stmt 1].
Proof.
  assert (Hroot : Ast.anodes paper_mem !! 1 = Some paper_root) by reflexivity.
  assert (Hl : is_list Ast.next (Ast.qnodes paper_mem) (Ast.questions paper_root)
                 [paper_q1; paper_q2]) by (vm_compute; repeat split; absurd_eq).
  assert (Hw : "jobs/j1/ast.dot" ∉ Ast.no_write paper_mem) by by_decision.
  assert (Hf : (length [paper_q1; paper_q2] < 3)%nat) by (simpl; lia).
  destruct (export_ast_to_dot_shape paper_mem 1 paper_root [paper_q1; paper_q2]
              "jobs/j1/ast.dot" 3 Hroot Hl Hw Hf) as (Hrun & _ & Hq & He & _).
  split; [exact Hrun|]. split; [exact Hq | exact He].
Defined.

(** C5 (as stated) fails for the label: the second question of the sample
    document has the difficulty Hard and the status DUPLICATE, and the
    exported file has no chunk that contains its difficulty; the file is
    the same when the annotations of the question are reset. *)
Lemma export_label_counterexample :
  exists m' content,
    Ast.export_ast_to_dot 3 1 "jobs/j1/ast.dot" paper_mem = Done tt m' /\
    Ast.files m' !! "jobs/j1/ast.dot" = Some content /\
    List.filter is_question_node content
      = [Ast.question_stmt 0 10; Ast.question_stmt 1 5] /\
    Ast.difficulty paper_q2 = "Hard" /\
    Ast.status_of_flag (Ast.status_flag paper_q2) = Some Ast.DUPLICATE /\
    Forall (fun chunk => ~ occurs_in (Ast.difficulty paper_q2) chunk) content /\
    content = dot_file paper_root
                [paper_q1;
                 Ast.mkQuestionNode (Ast.text paper_q2) (Ast.marks paper_q2)
                   "N/A" 0 "N/A" Ast.STATUS_OK "N/A" NULL].
Proof.
  exists (write_file "jobs/j1/ast.dot" (dot_file paper_root [paper_q1; paper_q2])
            (Ast.set_stdout
               (Ast.stdout paper_mem
                  ++ ["AST Helper: Exporting AST to " +:+ "jobs/j1/ast.dot" +:+ nl])
               paper_mem)),
         (dot_file paper_root [paper_q1; paper_q2]).
  split; [vm_compute; reflexivity|].
  split; [apply write_file_lookup|].
  split; [vm_compute; reflexivity|].
  split; [reflexivity|].
  split; [reflexivity|].
  split; [|reflexivity].
  repeat (apply Forall_cons; split; [by_decision|]). apply Forall_nil. exact I.
Qed.

(** ** Streams, paths and the exporter on a well-formed document *)

Lemma eprintf_run (chunk : string) (m : Ast.Mem) :
  Ast.eprintf chunk m = Done tt (Ast.set_stderr (Ast.stderr m ++ [chunk]) m).
Proof. reflexivity. Qed.

Lemma sprintf_run (size : nat) (s : string) (m : Ast.Mem) :
  (String.length s < size)%nat -> Ast.sprintf size s m = Done s m.
Proof.
  intros H. unfold Ast.sprintf. destruct (decide (String.length s < size)%nat); tauto.
Qed.

Lemma fopen_r_run (path : string) (m : Ast.Mem) :
  Ast.fopen_r path m
  = Done (match Ast.files m !! path with Some _ => Some path | None => None end) m.
Proof. unfold Ast.fopen_r. destruct (Ast.files m !! path); reflexivity. Qed.

(** The exporter finishes on every well-formed document, whether or not
    the output file can be opened. *)
Lemma export_ast_to_dot_total (m : Ast.Mem) (root : Z) (r : Ast.ASTNode)
    (ns : list Ast.QuestionNode) (filepath : string) (fuel : nat) :
  Ast.anodes m !! root = Some r ->
  is_list Ast.next (Ast.qnodes m) (Ast.questions r) ns ->
  (length ns < fuel)%nat ->
  exists m', Ast.export_ast_to_dot fuel root filepath m = Done tt m'.
Proof.
  intros Hroot Hl Hf. destruct (decide (filepath ∈ Ast.no_write m)) as [Hw|Hw].
  - unfold Ast.export_ast_to_dot. run_step printf_run.
    run_step fopen_w_fails. cbn [negb]. eexists. reflexivity.
  - eexists. apply (export_ast_to_dot_run m root r ns); assumption.
Qed.

(** ** The duplicate detector *)

Section DetectorFacts.
Variable words : string -> list string.
Variable threshold : Q.

Lemma similar_threshold (a b : string) :
  Duplicates.similar words threshold a b = true <-> (threshold <= Duplicates.similarity words a b)%Q.
Proof. unfold Duplicates.similar. apply Qle_bool_iff. Qed.

Lemma compare_pair_length (texts : list string) (i j : nat) (marked : list bool) :
  length (Duplicates.compare_pair words threshold texts i j marked) = length marked.
Proof.
  unfold Duplicates.compare_pair.
  destruct (texts !! i) as [a|]; [|reflexivity].
  destruct (texts !! j) as [b|]; [|reflexivity].
  destruct (Duplicates.similar words threshold a b); [apply length_insert | reflexivity].
Qed.

(** The comparison of a pair touches no mark but the one of its later
    question. *)
Lemma compare_pair_other (texts : list string) (i j k : nat) (marked : list bool) :
  k <> j -> Duplicates.compare_pair words threshold texts i j marked !! k = marked !! k.
Proof.
  intros Hk. unfold Duplicates.compare_pair.
  destruct (texts !! i) as [a|]; [|reflexivity].
  destruct (texts !! j) as [b|]; [|reflexivity].
  destruct (Duplicates.similar words threshold a b); [|reflexivity].
  apply list_lookup_insert_ne. congruence.
Qed.

Lemma compare_pair_later (texts : list string) (i j : nat) (marked : list bool) :
  Duplicates.compare_pair words threshold texts i j marked !! j = Some true <->
  marked !! j = Some true \/
  ((j < length marked)%nat /\
   exists a b, texts !! i = Some a /\ texts !! j = Some b /\ Duplicates.similar words threshold a b = true).
Proof.
  unfold Duplicates.compare_pair.
  destruct (texts !! i) as [a|] eqn:Ha.
  2:{ split; [auto|]. intros [H|(_ & a & b & H & _)]; [exact H | discriminate H]. }
  destruct (texts !! j) as [b|] eqn:Hb.
  2:{ split; [auto|]. intros [H|(_ & a' & b & _ & H & _)]; [exact H | discriminate H]. }
  destruct (Duplicates.similar words threshold a b) eqn:Hs.
  - split.
    + intros H. right. split; [|eauto].
      apply lookup_lt_Some in H. rewrite length_insert in H. exact H.
    + intros [H|(Hlt & _)].
      * apply lookup_lt_Some in H. apply list_lookup_insert_eq. exact H.
      * apply list_lookup_insert_eq. exact Hlt.
  - split; [auto|]. intros [H|(_ & a' & b' & [= <-] & [= <-] & H)]; [exact H|].
    congruence.
Qed.

Lemma scan_fold_length (texts : list string) (j : nat) (earlier : list nat)
    (marked : list bool) :
  length (foldl (fun acc i => Duplicates.compare_pair words threshold texts i j acc) marked earlier) = length marked.
Proof.
  revert marked. induction earlier as [|i earlier IH]; intros marked; [reflexivity|].
  simpl. rewrite IH. apply compare_pair_length.
Qed.

Lemma scan_fold_other (texts : list string) (j k : nat) (earlier : list nat)
    (marked : list bool) :
  k <> j ->
  foldl (fun acc i => Duplicates.compare_pair words threshold texts i j acc) marked earlier !! k = marked !! k.
Proof.
  intros Hk. revert marked. induction earlier as [|i earlier IH]; intros marked;
    [reflexivity|].
  simpl. rewrite IH. apply compare_pair_other, Hk.
Qed.

Lemma scan_fold_later (texts : list string) (j : nat) (earlier : list nat)
    (marked : list bool) :
  foldl (fun acc i => Duplicates.compare_pair words threshold texts i j acc) marked earlier !! j = Some true <->
  marked !! j = Some true \/
  ((j < length marked)%nat /\
   exists i a b, i ∈ earlier /\ texts !! i = Some a /\ texts !! j = Some b /\
                 Duplicates.similar words threshold a b = true).
Proof.
  revert marked. induction earlier as [|i earlier IH]; intros marked; simpl.
  - split; [auto|]. intros [H|(_ & i & a & b & Hin & _)]; [exact H|].
    apply elem_of_nil in Hin. destruct Hin.
  - rewrite IH, compare_pair_later, compare_pair_length. split.
    + intros [[H|(Hlt & a & b & Ha & Hb & Hs)]|(Hlt & i' & a & b & Hin & Ha & Hb & Hs)].
      * auto.
      * right. split; [exact Hlt|]. exists i, a, b. rewrite elem_of_cons. auto.
      * right. split; [exact Hlt|]. exists i', a, b. rewrite elem_of_cons. auto.
    + intros [H|(Hlt & i' & a & b & Hin & Ha & Hb & Hs)]; [auto|].
      apply elem_of_cons in Hin as [->|Hin].
      * left. right. split; [exact Hlt|]. eauto.
      * right. split; [exact Hlt|]. exists i', a, b. auto.
Qed.

Lemma detect_fold_length (texts : list string) (later : list nat) (marked : list bool) :
  length (foldl (fun acc j => Duplicates.scan_earlier words threshold texts j acc) marked later) = length marked.
Proof.
  revert marked. induction later as [|j later IH]; intros marked; [reflexivity|].
  simpl. rewrite IH. apply scan_fold_length.
Qed.

Lemma detect_fold (texts : list string) (later : list nat) (marked : list bool) (j : nat) :
  foldl (fun acc j' => Duplicates.scan_earlier words threshold texts j' acc) marked later !! j = Some true <->
  marked !! j = Some true \/
  (j ∈ later /\ (j < length marked)%nat /\
   exists i a b, (i < j)%nat /\ texts !! i = Some a /\ texts !! j = Some b /\
                 Duplicates.similar words threshold a b = true).
Proof.
  revert marked. induction later as [|j' later IH]; intros marked; simpl.
  - split; [auto|]. intros [H|(Hin & _)]; [exact H|].
    apply elem_of_nil in Hin. destruct Hin.
  - rewrite IH. unfold Duplicates.scan_earlier. rewrite scan_fold_length.
    destruct (decide (j = j')) as [<-|Hne].
    + rewrite scan_fold_later. split.
      * intros [[H|(Hlt & i & a & b & Hin & Ha & Hb & Hs)]|(Hin & Hlt & Hex)].
        -- auto.
        -- right. split; [apply elem_of_cons; auto|]. split; [exact Hlt|].
           exists i, a, b. apply elem_of_seq in Hin. split; [lia|auto].
        -- right. split; [apply elem_of_cons; auto|]. auto.
      * intros [H|(_ & Hlt & i & a & b & Hi & Ha & Hb & Hs)]; [auto|].
        left. right. split; [exact Hlt|]. exists i, a, b.
        split; [apply elem_of_seq; lia | auto].
    + rewrite scan_fold_other by exact Hne. split.
      * intros [H|(Hin & Hrest)]; [auto|]. right. split; [|exact Hrest].
        apply elem_of_cons. auto.
      * intros [H|(Hin & Hrest)]; [auto|]. right. split; [|exact Hrest].
        apply elem_of_cons in Hin as [Heq|Hin]; [congruence | exact Hin].
Qed.

(** The candidates of the detector are the questions with a Duplicates.similar words threshold
    earlier question. *)
Lemma detect_duplicates_spec (texts : list string) (j : nat) :
  Duplicates.detect_duplicates words threshold texts !! j = Some true <->
  exists i a b, (i < j)%nat /\ texts !! i = Some a /\ texts !! j = Some b /\
                Duplicates.similar words threshold a b = true.
Proof.
  unfold Duplicates.detect_duplicates. rewrite detect_fold. split.
  - intros [H|(_ & _ & H)]; [|exact H].
    apply lookup_replicate in H as [H _]. discriminate H.
  - intros (i & a & b & Hi & Ha & Hb & Hs). right.
    assert (Hj : (j < length texts)%nat) by (apply lookup_lt_Some in Hb; exact Hb).
    split; [apply elem_of_seq; lia|].
    split; [rewrite length_replicate; exact Hj|]. eauto 8.
Qed.

Lemma detect_duplicates_length (texts : list string) :
  length (Duplicates.detect_duplicates words threshold texts) = length texts.
Proof.
  unfold Duplicates.detect_duplicates. rewrite detect_fold_length.
  apply length_replicate.
Qed.

End DetectorFacts.

(** C8: with the statuses merged as the design prescribes, the question at
    index [j] ends up Duplicate exactly when some earlier question has a
    token-overlap similarity with it that meets or exceeds the threshold;
    the comparison of a pair leaves the mark of its earlier question as it
    was, and the first question of the sequence is never a duplicate. *)
Theorem duplicate_iff_earlier_similar (words : string -> list string) (threshold : Q)
    (texts : list string) (unmatched : list bool) (j : nat) :
  length unmatched = length texts ->
  (Duplicates.final_statuses words threshold texts unmatched !! j
     = Some Ast.STATUS_DUPLICATE <->
   exists i a b, (i < j)%nat /\ texts !! i = Some a /\ texts !! j = Some b /\
                 (threshold <= Duplicates.similarity words a b)%Q) /\
  (forall i marked, i <> j ->
     Duplicates.compare_pair words threshold texts i j marked !! i = marked !! i) /\
  Duplicates.final_statuses words threshold texts unmatched !! 0%nat
    <> Some Ast.STATUS_DUPLICATE.
Proof.
  intros Hlen.
  assert (Hstatus : forall k,
    Duplicates.final_statuses words threshold texts unmatched !! k
      = Some Ast.STATUS_DUPLICATE <->
    Duplicates.detect_duplicates words threshold texts !! k = Some true).
  { intros k. unfold Duplicates.final_statuses. rewrite lookup_zip_with_Some. split.
    - intros (d & u & Hm & Hd & Hu). unfold Duplicates.merge_status in Hm.
      destruct d; [exact Hd|]. destruct u; discriminate Hm.
    - intros Hd.
      assert (Hk : (k < length unmatched)%nat).
      { rewrite Hlen, <- (detect_duplicates_length words threshold).
        apply lookup_lt_Some in Hd. exact Hd. }
      apply lookup_lt_is_Some in Hk as [u Hu].
      exists true, u. auto. }
  split; [|split].
  - rewrite Hstatus, detect_duplicates_spec. split.
    + intros (i & a & b & Hi & Ha & Hb & Hs). exists i, a, b.
      apply similar_threshold in Hs. auto.
    + intros (i & a & b & Hi & Ha & Hb & Hs). exists i, a, b.
      apply similar_threshold in Hs. auto.
  - intros i marked Hi. apply compare_pair_other, Hi.
  - rewrite Hstatus, detect_duplicates_spec.
    intros (i & a & b & Hi & _). lia.
Qed.

(** Three questions, the third a reordering of the first in another case:
    only the third is a duplicate, also when it is out of the syllabus. *)
Lemma duplicate_iff_earlier_similar_witness :
  Duplicates.final_statuses (Duplicates.split_spaces EmptyString) (3 # 4)
    ["Define a compiler"; "Explain parsing"; "a Compiler define"] [false; true; true]
    !! 2%nat = Some Ast.STATUS_DUPLICATE /\
  Duplicates.final_statuses (Duplicates.split_spaces EmptyString) (3 # 4)
    ["Define a compiler"; "Explain parsing"; "a Compiler define"] [false; true; true]
    !! 0%nat <> Some Ast.STATUS_DUPLICATE.
Proof.
  destruct (duplicate_iff_earlier_similar (Duplicates.split_spaces EmptyString) (3 # 4)
              ["Define a compiler"; "Explain parsing"; "a Compiler define"]
              [false; true; true] 2 eq_refl) as (Hiff & _ & Hfirst).
  split; [|exact Hfirst].
  apply Hiff. exists 0%nat, "Define a compiler", "a Compiler define".
  split; [lia|]. split; [reflexivity|]. split; [reflexivity|].
  apply Qle_bool_iff. vm_compute. reflexivity.
Defined.

(** ** The programs on their sample inputs *)

(** The example [main] of semantic.c prints a match for the declared total
    32 and the default tier for its first and third question, whose
    keywords start with a capital letter. *)
Example semantic_main_output :
  exists s,
    Semantic.main 4 (Semantic.mkState ∅ []) = Done 0 s /\
    Semantic.stdout s
    = ["PASS: Marks sum matches declared total (32)" +:+ nl;
       "Q1 difficulty: MEDIUM" +:+ nl;
       "Q3 difficulty: MEDIUM" +:+ nl].
Proof. eexists. split; vm_compute; reflexivity. Qed.

(** The parser's actions for a paper of two questions, followed by the
    export: the nodes are created, appended in order and exported as q0
    and q1. *)
Example build_and_export :
  exists m,
    (q1 ← Ast.create_question_node "Define compiler and interpreter." 10;
     q2 ← Ast.create_question_node "Construct DFA for (a|b)*abb." 5;
     l1 ← Ast.append_question 3 NULL q1;
     l2 ← Ast.append_question 3 l1 q2;
     r ← Ast.create_ast_node "Compiler Design" 15 30 "syllabus/cd.json" l2;
     Ast.export_ast_to_dot 3 r "jobs/j1/ast.dot") empty_mem = Done tt m /\
    Ast.files m !! "jobs/j1/ast.dot"
    = Some [Ast.dot_open; Ast.dot_defaults; Ast.root_stmt "Compiler Design" 15 30;
            Ast.question_stmt 0 10; Ast.edge_stmt 0;
            Ast.question_stmt 1 5; Ast.edge_stmt 1; Ast.dot_close].
Proof. eexists. split; vm_compute; reflexivity. Qed.

(* ===================================================================== *)
(** * Further properties                                                  *)
(* ===================================================================== *)

(** ** The marks validator on arbitrary memory *)

(** A finished run of the loop has walked a well-formed list that is
    shorter than the budget. *)
Lemma sum_loop_Done_is_list (fuel : nat) (ptr sum r : Z) (s s' : Semantic.State) :
  Semantic.sum_loop fuel ptr sum s = Done r s' ->
  exists qs, is_list Semantic.next (Semantic.heap s) ptr qs /\ (length qs < fuel)%nat.
Proof.
  revert ptr sum. induction fuel as [|fuel IH]; intros ptr sum; simpl.
  - absurd_eq.
  - destruct (decide (ptr = NULL)) as [Hp|Hp].
    + intros _. exists []. split; [exact Hp | simpl; lia].
    + rewrite bind_run. unfold Semantic.load.
      destruct (Semantic.heap s !! ptr) as [q|] eqn:Hq; [|absurd_eq].
      intros Hrun. apply IH in Hrun as (qs & Hl & Hf).
      exists (q :: qs). simpl. split; [auto | lia].
Qed.

Lemma sum_loop_closed (addrs : gset Z) (fuel : nat) (ptr sum : Z) (s : Semantic.State) :
  closed_chain Semantic.next (Semantic.heap s) addrs -> ptr ∈ addrs ->
  Semantic.sum_loop fuel ptr sum s = OutOfFuel.
Proof.
  intros Hclosed. revert ptr sum. induction fuel as [|fuel IH]; intros ptr sum Hin;
    [reflexivity|].
  simpl. destruct (Hclosed ptr Hin) as (Hnull & q & Hq & Hnext).
  destruct (decide (ptr = NULL)); [tauto|].
  rewrite bind_run. unfold Semantic.load. rewrite Hq. apply IH, Hnext.
Qed.

Lemma sum_loop_dangling (qs : list Semantic.Question) (h : gmap Z Semantic.Question)
    (out : list string) (ptr sum p : Z) (fuel : nat) :
  is_seg Semantic.next h ptr qs p -> p <> NULL -> h !! p = None ->
  (length qs < fuel)%nat ->
  Semantic.sum_loop fuel ptr sum (Semantic.mkState h out) = Fault.
Proof.
  revert ptr sum fuel. induction qs as [|q qs IH]; intros ptr sum fuel Hseg Hp Hnone Hf;
    (destruct fuel as [|fuel]; [simpl in Hf; lia|]); simpl in *.
  - subst ptr. destruct (decide (p = NULL)); [tauto|].
    rewrite bind_run. unfold Semantic.load. simpl. rewrite Hnone. reflexivity.
  - destruct Hseg as (Hptr & Hq & Hseg). destruct (decide (ptr = NULL)); [tauto|].
    rewrite bind_run. unfold Semantic.load. simpl. rewrite Hq.
    apply IH; [exact Hseg | exact Hp | exact Hnone | lia].
Qed.

(** X1: the validator finishes exactly on the heads of NULL-terminated
    lists, and every finished run, whatever the budget, returns the flag of
    the sum of that list reduced to an [int]. *)
Theorem validate_marks_finishes_iff (head declared_total : Z) (s : Semantic.State) :
  ((exists fuel flag s',
      Semantic.validate_marks fuel head declared_total s = Done flag s')
   <-> exists qs, is_list Semantic.next (Semantic.heap s) head qs) /\
  (forall fuel flag s',
     Semantic.validate_marks fuel head declared_total s = Done flag s' ->
     exists qs, is_list Semantic.next (Semantic.heap s) head qs /\
                (length qs < fuel)%nat /\
                flag = (if decide (wrap_int (sum_of_marks qs) = declared_total)
                        then 1 else 0)).
Proof.
  assert (Hconv : forall fuel flag s',
     Semantic.validate_marks fuel head declared_total s = Done flag s' ->
     exists qs, is_list Semantic.next (Semantic.heap s) head qs /\
                (length qs < fuel)%nat /\
                flag = (if decide (wrap_int (sum_of_marks qs) = declared_total)
                        then 1 else 0)).
  { intros fuel flag s' Hrun. pose proof Hrun as Hrun'.
    unfold Semantic.validate_marks in Hrun.
    apply bind_Done in Hrun as (sum & s1 & Hloop & _).
    apply sum_loop_Done_is_list in Hloop as (qs & Hl & Hf).
    exists qs. split; [exact Hl|]. split; [exact Hf|].
    destruct s as [h out]. simpl in Hl.
    destruct (validate_marks_total h out head qs declared_total fuel Hl Hf)
      as [chunk Hrun2].
    rewrite Hrun2 in Hrun'. injection Hrun' as <- _. reflexivity. }
  split; [|exact Hconv]. split.
  - intros (fuel & flag & s' & Hrun).
    apply Hconv in Hrun as (qs & Hl & _). exists qs. exact Hl.
  - intros (qs & Hl). destruct s as [h out]. simpl in Hl.
    destruct (validate_marks_total h out head qs declared_total
                (Datatypes.S (length qs)) Hl) as [chunk Hrun]; [lia|].
    eexists _, _, _. exact Hrun.
Qed.

(** X2: on a circular chain the validator never finishes: it exhausts
    every budget, without a fault and without a result. *)
Theorem validate_marks_circular (addrs : gset Z) (head declared_total : Z)
    (s : Semantic.State) (fuel : nat) :
  closed_chain Semantic.next (Semantic.heap s) addrs -> head ∈ addrs ->
  Semantic.validate_marks fuel head declared_total s = OutOfFuel.
Proof.
  intros Hclosed Hin. unfold Semantic.validate_marks.
  rewrite bind_run, (sum_loop_closed addrs) by assumption. reflexivity.
Qed.

Lemma ring_heap_closed : closed_chain Semantic.next ring_heap {[1; 2]}.
Proof.
  intros a Ha. apply elem_of_union in Ha as [Ha|Ha]; apply elem_of_singleton in Ha;
    subst a; (split; [absurd_eq|]); eexists; (split; [reflexivity|]);
    vm_compute; set_solver.
Qed.

Lemma validate_marks_circular_witness :
  Semantic.validate_marks 1000 1 20 (Semantic.mkState ring_heap []) = OutOfFuel.
Proof.
  apply (validate_marks_circular {[1; 2]} 1 20 (Semantic.mkState ring_heap []) 1000).
  - exact ring_heap_closed.
  - by_decision.
Defined.

(** X3: when the chain of [next] pointers reaches an address that is not
    [NULL] and holds no object, the validator reads through it: the run is
    a fault, not a result, as soon as the budget covers the chain. *)
Theorem validate_marks_dangling (h : gmap Z Semantic.Question) (out : list string)
    (head p declared_total : Z) (qs : list Semantic.Question) (fuel : nat) :
  is_seg Semantic.next h head qs p -> p <> NULL -> h !! p = None ->
  (length qs < fuel)%nat ->
  Semantic.validate_marks fuel head declared_total (Semantic.mkState h out) = Fault.
Proof.
  intros Hseg Hp Hnone Hf. unfold Semantic.validate_marks.
  rewrite bind_run, (sum_loop_dangling qs h out head 0 p fuel) by assumption.
  reflexivity.
Qed.

Lemma validate_marks_dangling_witness :
  Semantic.validate_marks 2 1 10 (Semantic.mkState torn_heap []) = Fault.
Proof.
  apply (validate_marks_dangling torn_heap [] 1 7 10
           [Semantic.mkQuestion 1 "State the theorem." 10 EmptyString 7] 2).
  - vm_compute. repeat split. absurd_eq.
  - absurd_eq.
  - reflexivity.
  - simpl. lia.
Defined.

(** X4: on a well-formed list, called with an [int] as declared total,
    the validator prints one line, and that line agrees with the flag it
    returns: the PASS line with the declared total and the flag 1 when the
    computed sum equals it, else the FAIL line with the sum as computed in
    [int] arithmetic and the declared total, and the flag 0. The computed
    sum is always an [int]. *)
Theorem validate_marks_verdict (h : gmap Z Semantic.Question) (out : list string)
    (head : Z) (qs : list Semantic.Question) (declared_total : Z) (fuel : nat) :
  is_list Semantic.next h head qs -> (length qs < fuel)%nat ->
  in_int_range declared_total ->
  let sum := wrap_int (sum_of_marks qs) in
  in_int_range sum /\
  (sum = declared_total ->
   Semantic.validate_marks fuel head declared_total (Semantic.mkState h out)
   = Done 1 (Semantic.mkState h (out ++ [pass_line declared_total]))) /\
  (sum <> declared_total ->
   Semantic.validate_marks fuel head declared_total (Semantic.mkState h out)
   = Done 0 (Semantic.mkState h (out ++ [fail_line sum declared_total]))).
Proof.
  intros Hl Hf _ sum.
  assert (Hrun : Semantic.validate_marks fuel head declared_total (Semantic.mkState h out)
    = if decide (sum = declared_total)
      then Done 1 (Semantic.mkState h (out ++ [pass_line declared_total]))
      else Done 0 (Semantic.mkState h (out ++ [fail_line sum declared_total]))).
  { unfold Semantic.validate_marks.
    rewrite bind_run, (sum_loop_total h out head qs fuel Hl Hf). fold sum.
    destruct (decide (sum = declared_total)); reflexivity. }
  split; [apply wrap_int_range|].
  split.
  - intros He. rewrite Hrun. destruct (decide (sum = declared_total)); tauto.
  - intros He. rewrite Hrun. destruct (decide (sum = declared_total)); tauto.
Qed.

(** The three questions of the example against the declared totals 32,
    their sum, and 30; the overflowing list against the declared total 0,
    the sum the validator computes for it. *)
Lemma validate_marks_verdict_witness :
  Semantic.validate_marks 4 1 32 (Semantic.mkState sample_heap [])
  = Done 1 (Semantic.mkState sample_heap [pass_line 32]) /\
  Semantic.validate_marks 4 1 30 (Semantic.mkState sample_heap [])
  = Done 0 (Semantic.mkState sample_heap [fail_line 32 30]) /\
  Semantic.validate_marks 4 1 0 (Semantic.mkState large_heap [])
  = Done 1 (Semantic.mkState large_heap [pass_line 0]).
Proof.
  assert (Hs : is_list Semantic.next sample_heap 1 [sample_q1; sample_q2; sample_q3])
    by (vm_compute; repeat split; absurd_eq).
  assert (Hl : is_list Semantic.next large_heap 1 [large_q1; large_q2; large_q3])
    by (vm_compute; repeat split; absurd_eq).
  assert (Hf : (3 < 4)%nat) by lia.
  split; [|split].
  - destruct (validate_marks_verdict sample_heap [] 1 [sample_q1; sample_q2; sample_q3]
                32 4 Hs Hf) as (_ & Hpass & _).
    + unfold in_int_range, INT_MIN, INT_MAX. lia.
    + apply Hpass. reflexivity.
  - destruct (validate_marks_verdict sample_heap [] 1 [sample_q1; sample_q2; sample_q3]
                30 4 Hs Hf) as (_ & _ & Hfail).
    + unfold in_int_range, INT_MIN, INT_MAX. lia.
    + apply Hfail. vm_compute. absurd_eq.
  - destruct (validate_marks_verdict large_heap [] 1 [large_q1; large_q2; large_q3]
                0 4 Hl Hf) as (_ & Hpass & _).
    + unfold in_int_range, INT_MIN, INT_MAX. lia.
    + apply Hpass. reflexivity.
Defined.

(** ** The classifier on arbitrary text *)

Lemma append_assoc (a b c : string) : (a +:+ b) +:+ c = a +:+ b +:+ c.
Proof.
  induction a as [|x a IH]; [reflexivity|].
  rewrite !append_String, IH. reflexivity.
Qed.

Lemma length_append (a b : string) :
  String.length (a +:+ b) = (String.length a + String.length b)%nat.
Proof.
  induction a as [|x a IH]; [reflexivity|].
  rewrite append_String. simpl. rewrite IH. reflexivity.
Qed.

Lemma occurs_in_context (needle text before after : string) :
  occurs_in needle text -> occurs_in needle (before +:+ text +:+ after).
Proof.
  intros (b & a & ->). exists (before +:+ b), (a +:+ after).
  rewrite !append_assoc. reflexivity.
Qed.

Lemma matches_context (keywords : list string) (text before after : string) :
  matches keywords text -> matches keywords (before +:+ text +:+ after).
Proof.
  intros (k & Hk & Ho). exists k. split; [exact Hk | apply occurs_in_context, Ho].
Qed.

Lemma occurs_in_length (needle text : string) :
  occurs_in needle text -> (String.length needle <= String.length text)%nat.
Proof. intros (b & a & ->). rewrite !length_append. lia. Qed.

Lemma occurs_in_first_char (c : ascii) (needle text : string) :
  occurs_in (String c needle) text -> In c (list_ascii_of_string text).
Proof.
  intros (b & a & ->). induction b as [|x b IH].
  - rewrite append_Empty, append_String. simpl. auto.
  - rewrite append_String. simpl. auto.
Qed.

(** X5: text around a question cannot take an EASY classification away,
    and cannot turn a question with a keyword of rule 2 into a HARD one:
    the tier can only move up the order of the rules. *)
Theorem classify_in_context (text before after : string) :
  (Semantic.classify_difficulty text = "EASY" ->
   Semantic.classify_difficulty (before +:+ text +:+ after) = "EASY") /\
  (matches rule2_keywords text ->
   Semantic.classify_difficulty (before +:+ text +:+ after) <> "HARD").
Proof.
  split.
  - intros He.
    assert (H1 : matches rule1_keywords text).
    { destruct (classify_difficulty_cases text)
        as [[H1 _]|[(_ & _ & H)|[(_ & _ & _ & H)|(_ & _ & _ & H)]]];
        [exact H1 | | |]; rewrite H in He; discriminate He. }
    destruct (classify_difficulty_cases (before +:+ text +:+ after))
      as [[_ H]|[(N1 & _)|[(N1 & _)|(N1 & _)]]]; [exact H | | |];
      exfalso; apply N1, matches_context, H1.
  - intros H2.
    destruct (classify_difficulty_cases (before +:+ text +:+ after))
      as [[_ ->]|[(_ & _ & ->)|[(_ & N2 & _)|(_ & _ & _ & ->)]]];
      try absurd_eq.
    exfalso. apply N2, matches_context, H2.
Qed.

Lemma classify_in_context_witness :
  Semantic.classify_difficulty ("Q1. " +:+ "define a token" +:+ ", then design a lexer.")
    = "EASY" /\
  Semantic.classify_difficulty ("Design and " +:+ "prove it" +:+ " or construct one.")
    <> "HARD".
Proof.
  split.
  - apply (classify_in_context "define a token" "Q1. " ", then design a lexer.").
    reflexivity.
  - apply (classify_in_context "prove it" "Design and " " or construct one.").
    by_decision.
Defined.

(** X6: the shortest keywords have five characters, so every text of fewer
    than five characters, the empty text among them, gets the default
    MEDIUM. *)
Theorem classify_short_text (text : string) :
  (String.length text < 5)%nat -> Semantic.classify_difficulty text = "MEDIUM".
Proof.
  intros Hlen.
  assert (Hno : forall keywords,
    Forall (fun k => (5 <= String.length k)%nat) keywords -> ~ matches keywords text).
  { intros keywords Hall (k & Hk & Ho).
    rewrite Forall_forall in Hall. specialize (Hall k Hk).
    apply occurs_in_length in Ho. lia. }
  destruct (classify_difficulty_cases text)
    as [[H _]|[(_ & H & _)|[(_ & _ & H & _)|(_ & _ & _ & H)]]]; [| | |exact H];
    exfalso; revert H; apply Hno; repeat constructor; simpl; lia.
Qed.

Lemma classify_short_text_witness :
  Semantic.classify_difficulty EmptyString = "MEDIUM" /\
  Semantic.classify_difficulty "stat" = "MEDIUM".
Proof.
  split; apply classify_short_text; simpl; lia.
Defined.

(** X7: every keyword starts with a lower-case letter, so a text without
    any lower-case letter, such as a question typed in capitals, gets the
    default MEDIUM whatever words it contains. *)
Theorem classify_without_lower_case (text : string) :
  Forall (fun c => is_lower_letter c = false) (list_ascii_of_string text) ->
  Semantic.classify_difficulty text = "MEDIUM".
Proof.
  intros Hcaps.
  assert (Hno : forall keywords,
    Forall (fun k => exists c k', k = String c k' /\ is_lower_letter c = true) keywords ->
    ~ matches keywords text).
  { intros keywords Hall (k & Hk & Ho).
    rewrite Forall_forall in Hall. destruct (Hall k Hk) as (c & k' & -> & Hc).
    apply occurs_in_first_char in Ho.
    rewrite Forall_forall in Hcaps. apply list_elem_of_In in Ho.
    rewrite (Hcaps c Ho) in Hc. discriminate Hc. }
  destruct (classify_difficulty_cases text)
    as [[H _]|[(_ & H & _)|[(_ & _ & H & _)|(_ & _ & _ & H)]]]; [| | |exact H];
    exfalso; revert H; apply Hno;
    repeat (constructor; [eexists _, _; split; reflexivity|]); constructor.
Qed.

Lemma classify_without_lower_case_witness :
  Semantic.classify_difficulty "DEFINE COMPILER. PROVE IT. DESIGN A DFA (2024)." = "MEDIUM".
Proof.
  apply classify_without_lower_case. by_decision.
Defined.

(** ** Chains of [next] pointers *)

Section ChainFacts.
Context {node : Type} (next : node -> Z).

Lemma is_list_functional (h : gmap Z node) (p : Z) (ns1 ns2 : list node) :
  is_list next h p ns1 -> is_list next h p ns2 -> ns1 = ns2.
Proof.
  revert p ns2. induction ns1 as [|n ns1 IH]; intros p [|n2 ns2]; simpl.
  - reflexivity.
  - intros -> (Hp & _). congruence.
  - intros (Hp & _) ->. congruence.
  - intros (_ & H1 & Hl1) (_ & H2 & Hl2).
    rewrite H1 in H2. injection H2 as <-. f_equal. exact (IH _ _ Hl1 Hl2).
Qed.

Lemma is_list_suffix_at (h : gmap Z node) (p a : Z) (ns : list node) :
  is_list next h p ns -> a ∈ list_addrs next p ns ->
  exists ns2, is_list next h a ns2 /\ (0 < length ns2 <= length ns)%nat.
Proof.
  revert p. induction ns as [|n ns IH]; intros p Hl Ha; simpl in *.
  - apply elem_of_nil in Ha. destruct Ha.
  - apply elem_of_cons in Ha as [->|Ha].
    + exists (n :: ns). simpl. split; [exact Hl | lia].
    + destruct Hl as (_ & _ & Hl). destruct (IH _ Hl Ha) as (ns2 & Hl2 & Hlen).
      exists ns2. split; [exact Hl2 | lia].
Qed.

(** A well-formed list visits no address twice. *)
Lemma is_list_NoDup (h : gmap Z node) (p : Z) (ns : list node) :
  is_list next h p ns -> NoDup (list_addrs next p ns).
Proof.
  revert p. induction ns as [|n ns IH]; intros p Hl; simpl; [constructor|].
  pose proof Hl as (_ & _ & Htail). constructor; [|apply IH, Htail].
  intros Hin. destruct (is_list_suffix_at h _ p ns Htail Hin) as (ns2 & Hl2 & Hlen).
  pose proof (is_list_functional h p _ _ Hl Hl2) as <-. simpl in Hlen. lia.
Qed.

Lemma is_list_addr (h : gmap Z node) (p a : Z) (ns : list node) :
  is_list next h p ns -> a ∈ list_addrs next p ns ->
  a <> NULL /\
  exists n, h !! a = Some n /\
            (next n ∈ list_addrs next p ns \/ last (list_addrs next p ns) = Some a).
Proof.
  revert p. induction ns as [|n ns IH]; intros p Hl Ha; simpl in *.
  - apply elem_of_nil in Ha. destruct Ha.
  - destruct Hl as (Hp & Hn & Hl). apply elem_of_cons in Ha as [->|Ha].
    + split; [exact Hp|]. exists n. split; [exact Hn|].
      destruct ns as [|n2 ns]; [right; reflexivity|].
      left. simpl. apply elem_of_cons. right. apply elem_of_cons. left. reflexivity.
    + destruct (IH _ Hl Ha) as (Ha0 & n' & Hn' & Hnext).
      split; [exact Ha0|]. exists n'. split; [exact Hn'|].
      destruct Hnext as [Hnext|Hlast].
      * left. apply elem_of_cons. auto.
      * right. destruct ns as [|n2 ns]; [discriminate Hlast | exact Hlast].
Qed.

Lemma is_list_insert_other (h : gmap Z node) (p a : Z) (x : node) (ns : list node) :
  a ∉ list_addrs next p ns -> is_list next h p ns ->
  is_list next (<[a := x]> h) p ns.
Proof.
  revert p. induction ns as [|n ns IH]; intros p Ha Hl; simpl in *; [exact Hl|].
  destruct Hl as (Hp & Hn & Hl). rewrite not_elem_of_cons in Ha. destruct Ha as [Hne Ha].
  split; [exact Hp|]. split; [|apply IH; assumption].
  rewrite lookup_insert_ne by congruence. exact Hn.
Qed.

Lemma closed_chain_no_list (h : gmap Z node) (addrs : gset Z) (p : Z) (ns : list node) :
  closed_chain next h addrs -> p ∈ addrs -> ~ is_list next h p ns.
Proof.
  intros Hclosed. revert p. induction ns as [|n ns IH]; intros p Hin Hl; simpl in Hl.
  - destruct (Hclosed p Hin) as [Hp _]. contradiction.
  - destruct Hl as (_ & Hn & Hl). destruct (Hclosed p Hin) as (_ & n' & Hn' & Hnext).
    rewrite Hn in Hn'. injection Hn' as <-. exact (IH _ Hnext Hl).
Qed.

End ChainFacts.

(** ** Building the question list *)

Lemma create_question_node_run (text : string) (marks : Z) (m : Ast.Mem) :
  Ast.create_question_node text marks m
  = Done (Ast.unused m)
      (Ast.set_qnodes (<[Ast.unused m := fresh_question text marks]> (Ast.qnodes m)) m).
Proof. reflexivity. Qed.

Lemma unused_not_in_list (m : Ast.Mem) (p : Z) (ns : list Ast.QuestionNode) :
  is_list Ast.next (Ast.qnodes m) p ns -> Ast.unused m ∉ list_addrs Ast.next p ns.
Proof.
  intros Hl Hin. destruct (is_list_addr Ast.next _ _ _ _ Hl Hin) as (_ & n & Hn & _).
  destruct (unused_spec m) as (_ & Hq & _). congruence.
Qed.

(** X8: creating a question never disturbs what exists: every well-formed
    list is the same list afterwards, the new node is none of its nodes,
    every other question node and every tree node is as before, and the
    files and streams are untouched. *)
Theorem create_question_node_preserves_lists (text : string) (marks : Z) (m : Ast.Mem)
    (head : Z) (ns : list Ast.QuestionNode) :
  is_list Ast.next (Ast.qnodes m) head ns ->
  exists p m',
    Ast.create_question_node text marks m = Done p m' /\
    is_list Ast.next (Ast.qnodes m') head ns /\
    (p ∉ list_addrs Ast.next head ns) /\
    Ast.qnodes m' !! p = Some (fresh_question text marks) /\
    (forall a, a <> p -> Ast.qnodes m' !! a = Ast.qnodes m !! a) /\
    Ast.anodes m' = Ast.anodes m /\ Ast.files m' = Ast.files m /\
    Ast.stdout m' = Ast.stdout m /\ Ast.stderr m' = Ast.stderr m.
Proof.
  intros Hl. eexists (Ast.unused m), _. split; [apply create_question_node_run|].
  pose proof (unused_not_in_list m head ns Hl) as Hfresh.
  split; [apply is_list_insert_other; assumption|].
  split; [exact Hfresh|].
  split; [apply lookup_insert_eq|].
  split; [intros a Ha; apply lookup_insert_ne; congruence|].
  repeat split; reflexivity.
Qed.

Lemma create_question_node_preserves_lists_witness :
  exists p m',
    Ast.create_question_node "Explain parsing." 8 paper_mem = Done p m' /\
    is_list Ast.next (Ast.qnodes m') 2 [paper_q1; paper_q2] /\
    (p ∉ [2; 3]).
Proof.
  destruct (create_question_node_preserves_lists "Explain parsing." 8 paper_mem 2
              [paper_q1; paper_q2]) as (p & m' & Hrun & Hl & Hp & _).
  - vm_compute. repeat split; absurd_eq.
  - exists p, m'. auto.
Defined.

Lemma load_q_run (p : Z) (q : Ast.QuestionNode) (m : Ast.Mem) :
  Ast.qnodes m !! p = Some q -> Ast.load_q p m = Done q m.
Proof. intros H. unfold Ast.load_q. rewrite H. reflexivity. Qed.

(** On a well-formed list that is not empty and not longer than the
    budget, the search loop returns the address of the last node. *)
Lemma find_tail_run (ns : list Ast.QuestionNode) (m : Ast.Mem) (p : Z) (fuel : nat) :
  is_list Ast.next (Ast.qnodes m) p ns -> ns <> [] -> (length ns <= fuel)%nat ->
  exists t n,
    Ast.find_tail fuel p m = Done t m /\
    last (list_addrs Ast.next p ns) = Some t /\ last ns = Some n /\
    Ast.qnodes m !! t = Some n /\ Ast.next n = NULL.
Proof.
  revert p fuel. induction ns as [|n ns IH]; intros p fuel Hl Hne Hf; [congruence|].
  destruct fuel as [|fuel]; [simpl in Hf; lia|].
  destruct Hl as (Hp & Hn & Hl). cbn [Ast.find_tail].
  run_step load_q_run.
  destruct ns as [|n2 ns].
  - simpl in Hl. destruct (decide (Ast.next n <> NULL)); [congruence|].
    exists p, n. repeat split; assumption.
  - pose proof Hl as (Hnext & _).
    destruct (decide (Ast.next n <> NULL)); [|tauto].
    destruct (IH (Ast.next n) fuel Hl) as (t & n' & Hrun & Hlast & Hlastn & Ht & Hnull);
      [congruence | simpl in *; lia |].
    exists t, n'. split; [exact Hrun|]. split; [exact Hlast|]. split; [exact Hlastn|].
    auto.
Qed.

Lemma relink_is_list (ns : list Ast.QuestionNode) (h : gmap Z Ast.QuestionNode)
    (p t new : Z) (n_last n_new : Ast.QuestionNode) :
  is_list Ast.next h p ns ->
  last (list_addrs Ast.next p ns) = Some t -> last ns = Some n_last ->
  h !! new = Some n_new -> Ast.next n_new = NULL -> new <> NULL ->
  new ∉ list_addrs Ast.next p ns ->
  is_list Ast.next (<[t := with_next n_last new]> h) p (relink_last new ns ++ [n_new]).
Proof.
  revert p. induction ns as [|n ns IH]; intros p Hl Ht Hn Hnew Hnull Hne Hfresh;
    [discriminate Ht|].
  pose proof (is_list_NoDup Ast.next h p (n :: ns) Hl) as Hnodup.
  destruct Hl as (Hp & Hpn & Hl).
  destruct ns as [|n2 ns].
  - simpl in Ht, Hn. injection Ht as <-. injection Hn as <-.
    simpl. split; [exact Hp|]. split; [apply lookup_insert_eq|].
    split; [exact Hne|]. split; [|exact Hnull].
    rewrite lookup_insert_ne; [exact Hnew|].
    intros ->. apply Hfresh. simpl. apply elem_of_cons. auto.
  - change (relink_last new (n :: n2 :: ns)) with (n :: relink_last new (n2 :: ns)).
    change (list_addrs Ast.next p (n :: n2 :: ns))
      with (p :: list_addrs Ast.next (Ast.next n) (n2 :: ns)) in *.
    assert (Ht' : last (list_addrs Ast.next (Ast.next n) (n2 :: ns)) = Some t)
      by exact Ht.
    assert (Hn' : last (n2 :: ns) = Some n_last) by exact Hn.
    apply NoDup_cons in Hnodup as [Hpnot _].
    rewrite not_elem_of_cons in Hfresh. destruct Hfresh as [_ Hfresh].
    cbn [app is_list]. split; [exact Hp|]. split.
    + rewrite lookup_insert_ne; [exact Hpn|].
      intros <-. apply Hpnot. apply last_Some in Ht' as [l' ->].
      apply elem_of_app. right. apply elem_of_cons. auto.
    + apply IH; assumption.
Qed.

Lemma relink_last_length (new : Z) (ns : list Ast.QuestionNode) :
  length (relink_last new ns) = length ns.
Proof.
  induction ns as [|n [|n2 ns] IH]; [reflexivity | reflexivity |].
  change (relink_last new (n :: n2 :: ns)) with (n :: relink_last new (n2 :: ns)).
  simpl in *. rewrite IH. reflexivity.
Qed.

Lemma relink_last_text (new : Z) (ns : list Ast.QuestionNode) :
  Ast.text <$> relink_last new ns = Ast.text <$> ns.
Proof.
  induction ns as [|n [|n2 ns] IH]; [reflexivity | reflexivity |].
  change (relink_last new (n :: n2 :: ns)) with (n :: relink_last new (n2 :: ns)).
  rewrite !fmap_cons in *. rewrite IH. reflexivity.
Qed.

Lemma relink_last_marks (new : Z) (ns : list Ast.QuestionNode) :
  Ast.marks <$> relink_last new ns = Ast.marks <$> ns.
Proof.
  induction ns as [|n [|n2 ns] IH]; [reflexivity | reflexivity |].
  change (relink_last new (n :: n2 :: ns)) with (n :: relink_last new (n2 :: ns)).
  rewrite !fmap_cons in *. rewrite IH. reflexivity.
Qed.

(** The run of [append_question] on a list that is not empty. *)
Lemma append_question_run (ns : list Ast.QuestionNode) (m : Ast.Mem)
    (head new : Z) (fuel : nat) :
  is_list Ast.next (Ast.qnodes m) head ns -> ns <> [] -> (length ns <= fuel)%nat ->
  exists t n_last,
    last (list_addrs Ast.next head ns) = Some t /\ last ns = Some n_last /\
    Ast.append_question fuel head new m
    = Done head (Ast.set_qnodes (<[t := with_next n_last new]> (Ast.qnodes m)) m).
Proof.
  intros Hl Hne Hf.
  destruct (find_tail_run ns m head fuel Hl Hne Hf)
    as (t & n_last & Hfind & Ht & Hn & Hlook & _).
  exists t, n_last. split; [exact Ht|]. split; [exact Hn|].
  unfold Ast.append_question.
  destruct ns as [|n ns]; [congruence|]. destruct Hl as (Hhead & _).
  destruct (decide (head = NULL)); [congruence|].
  erewrite bind_step by exact Hfind. cbv beta.
  unfold Ast.set_next. erewrite bind_step; [|erewrite bind_step by (apply load_q_run, Hlook); reflexivity].
  reflexivity.
Qed.

(** The effect of [append_question] with a node that is not in the list. *)
Lemma append_question_spec (m : Ast.Mem) (head new : Z)
    (ns : list Ast.QuestionNode) (n_new : Ast.QuestionNode) (fuel : nat) :
  is_list Ast.next (Ast.qnodes m) head ns ->
  Ast.qnodes m !! new = Some n_new -> Ast.next n_new = NULL -> new <> NULL ->
  new ∉ list_addrs Ast.next head ns ->
  (length ns <= fuel)%nat ->
  exists head' m',
    Ast.append_question fuel head new m = Done head' m' /\
    head' = (if decide (head = NULL) then new else head) /\
    is_list Ast.next (Ast.qnodes m') head' (relink_last new ns ++ [n_new]) /\
    Ast.text <$> (relink_last new ns ++ [n_new]) = (Ast.text <$> ns) ++ [Ast.text n_new] /\
    Ast.marks <$> (relink_last new ns ++ [n_new])
      = (Ast.marks <$> ns) ++ [Ast.marks n_new] /\
    (forall a, a ∉ list_addrs Ast.next head ns ->
               Ast.qnodes m' !! a = Ast.qnodes m !! a) /\
    Ast.anodes m' = Ast.anodes m /\ Ast.files m' = Ast.files m.
Proof.
  intros Hl Hnew Hnull Hne Hfresh Hf.
  assert (Hfields :
    Ast.text <$> (relink_last new ns ++ [n_new]) = (Ast.text <$> ns) ++ [Ast.text n_new] /\
    Ast.marks <$> (relink_last new ns ++ [n_new])
      = (Ast.marks <$> ns) ++ [Ast.marks n_new]).
  { rewrite !fmap_app, relink_last_text, relink_last_marks. auto. }
  destruct ns as [|n ns].
  - simpl in Hl. subst head. exists new, m.
    unfold Ast.append_question. destruct (decide (NULL = NULL)); [|congruence].
    split; [reflexivity|]. split; [reflexivity|].
    split; [simpl; auto|]. split; [apply Hfields|]. split; [apply Hfields|].
    repeat split; reflexivity.
  - destruct (append_question_run (n :: ns) m head new fuel Hl) as (t & n_last & Ht & Hn & Hrun);
      [congruence | exact Hf |].
    pose proof Hl as (Hhead & _).
    eexists head, _. split; [exact Hrun|].
    destruct (decide (head = NULL)); [congruence|].
    split; [reflexivity|].
    split; [apply relink_is_list; assumption|].
    split; [apply Hfields|]. split; [apply Hfields|].
    split; [|split; reflexivity].
    intros a Ha. cbn [Ast.qnodes Ast.set_qnodes]. apply lookup_insert_ne.
    intros <-. apply Ha. apply last_Some in Ht as [l' ->].
    apply elem_of_app. right. apply elem_of_cons. auto.
Qed.

(** X9: appending a node that is not yet in the list, holds an object and
    has no successor gives a well-formed list again: the old nodes in their
    order, unchanged but for the [next] field of the last one, then the new
    node. The function returns the old head, or the new node when the list
    was empty, and changes no other object. *)
Theorem append_question_appends (m : Ast.Mem) (head new : Z)
    (ns : list Ast.QuestionNode) (n_new : Ast.QuestionNode) (fuel : nat) :
  is_list Ast.next (Ast.qnodes m) head ns ->
  Ast.qnodes m !! new = Some n_new -> Ast.next n_new = NULL -> new <> NULL ->
  new ∉ list_addrs Ast.next head ns ->
  (length ns <= fuel)%nat ->
  exists head' m',
    Ast.append_question fuel head new m = Done head' m' /\
    head' = (if decide (head = NULL) then new else head) /\
    is_list Ast.next (Ast.qnodes m') head' (relink_last new ns ++ [n_new]) /\
    Ast.text <$> (relink_last new ns ++ [n_new]) = (Ast.text <$> ns) ++ [Ast.text n_new] /\
    Ast.marks <$> (relink_last new ns ++ [n_new])
      = (Ast.marks <$> ns) ++ [Ast.marks n_new] /\
    (forall a, a ∉ list_addrs Ast.next head ns ->
               Ast.qnodes m' !! a = Ast.qnodes m !! a) /\
    Ast.anodes m' = Ast.anodes m /\ Ast.files m' = Ast.files m.
Proof. exact (append_question_spec m head new ns n_new fuel). Qed.

(** A detached third question appended to the sample paper. *)
Lemma append_question_appends_witness :
  exists head' m',
    Ast.append_question 2 2 4
      (Ast.set_qnodes (<[4 := fresh_question "Explain parsing." 8]> (Ast.qnodes paper_mem))
         paper_mem) = Done head' m' /\
    head' = 2 /\
    is_list Ast.next (Ast.qnodes m') head'
      [paper_q1; with_next paper_q2 4; fresh_question "Explain parsing." 8].
Proof.
  destruct (append_question_appends
              (Ast.set_qnodes (<[4 := fresh_question "Explain parsing." 8]>
                                 (Ast.qnodes paper_mem)) paper_mem)
              2 4 [paper_q1; paper_q2] (fresh_question "Explain parsing." 8) 2)
    as (head' & m' & Hrun & Hhead & Hl & _).
  - vm_compute. repeat split; absurd_eq.
  - reflexivity.
  - reflexivity.
  - absurd_eq.
  - by_decision.
  - simpl. lia.
  - exists head', m'. split; [exact Hrun|]. split; [exact Hhead | exact Hl].
Defined.

(** X10: a freshly created question can always be appended: creating a
    node and appending it to a well-formed list, empty or not, finishes
    and leaves a well-formed list with the texts and marks of the old
    questions in their order, followed by the new text and marks. *)
Theorem create_then_append (text : string) (marks : Z) (m : Ast.Mem) (head : Z)
    (ns : list Ast.QuestionNode) (fuel : nat) :
  is_list Ast.next (Ast.qnodes m) head ns -> (length ns <= fuel)%nat ->
  exists head' m' ns',
    (q ← Ast.create_question_node text marks; Ast.append_question fuel head q) m
      = Done head' m' /\
    is_list Ast.next (Ast.qnodes m') head' ns' /\
    Ast.text <$> ns' = (Ast.text <$> ns) ++ [text] /\
    Ast.marks <$> ns' = (Ast.marks <$> ns) ++ [marks] /\
    (head <> NULL -> head' = head).
Proof.
  intros Hl Hf.
  set (m1 := Ast.set_qnodes
               (<[Ast.unused m := fresh_question text marks]> (Ast.qnodes m)) m).
  pose proof (unused_not_in_list m head ns Hl) as Hfresh.
  destruct (unused_spec m) as (Hnull & _ & _).
  destruct (append_question_spec m1 head (Ast.unused m) ns
              (fresh_question text marks) fuel)
    as (head' & m' & Hrun & Hhead & Hl' & Htext & Hmarks & _).
  - apply is_list_insert_other; assumption.
  - apply lookup_insert_eq.
  - reflexivity.
  - exact Hnull.
  - exact Hfresh.
  - exact Hf.
  - exists head', m', (relink_last (Ast.unused m) ns ++ [fresh_question text marks]).
    split; [erewrite bind_step by apply create_question_node_run; exact Hrun|].
    split; [exact Hl'|]. split; [exact Htext|]. split; [exact Hmarks|].
    intros Hne. rewrite Hhead. destruct (decide (head = NULL)); congruence.
Qed.

Lemma create_then_append_witness :
  exists head' m' ns',
    (q ← Ast.create_question_node "Explain parsing." 8; Ast.append_question 2 2 q)
      paper_mem = Done head' m' /\
    is_list Ast.next (Ast.qnodes m') head' ns' /\
    Ast.marks <$> ns' = [10; 5; 8].
Proof.
  destruct (create_then_append "Explain parsing." 8 paper_mem 2 [paper_q1; paper_q2] 2)
    as (head' & m' & ns' & Hrun & Hl & _ & Hmarks & _).
  - vm_compute. repeat split; absurd_eq.
  - simpl. lia.
  - exists head', m', ns'. split; [exact Hrun|]. split; [exact Hl | exact Hmarks].
Defined.

Lemma export_loop_closed (addrs : gset Z) (fuel : nat) (f : string) (q i : Z)
    (m : Ast.Mem) :
  closed_chain Ast.next (Ast.qnodes m) addrs -> q ∈ addrs ->
  Ast.export_loop fuel f q i m = OutOfFuel.
Proof.
  revert q i m. induction fuel as [|fuel IH]; intros q i m Hclosed Hin; [reflexivity|].
  cbn [Ast.export_loop]. destruct (Hclosed q Hin) as (Hnull & n & Hn & Hnext).
  destruct (decide (q <> NULL)); [|tauto].
  run_step load_q_run.
  rewrite bind_run. cbn [Ast.fprintf]. rewrite bind_run. cbn [Ast.fprintf].
  apply IH; [exact Hclosed | exact Hnext].
Qed.

Lemma find_tail_closed (addrs : gset Z) (fuel : nat) (p : Z) (m : Ast.Mem) :
  closed_chain Ast.next (Ast.qnodes m) addrs -> p ∈ addrs ->
  Ast.find_tail fuel p m = OutOfFuel.
Proof.
  intros Hclosed. revert p. induction fuel as [|fuel IH]; intros p Hin; [reflexivity|].
  cbn [Ast.find_tail]. destruct (Hclosed p Hin) as (_ & n & Hn & Hnext).
  run_step load_q_run.
  destruct (Hclosed _ Hnext) as (Hnn & _).
  destruct (decide (Ast.next n <> NULL)); [|tauto].
  apply IH, Hnext.
Qed.

(** X11: [append_question] does not look whether the new node is already
    in the list. Appending a node of the list itself finishes and closes
    the chain into a circle: the memory holds no well-formed list at the
    head any more, the loop of the exporter exhausts every budget, and so
    does every further [append_question] on that list. *)
Theorem append_question_alias (m : Ast.Mem) (head new : Z)
    (ns : list Ast.QuestionNode) (fuel : nat) :
  is_list Ast.next (Ast.qnodes m) head ns ->
  new ∈ list_addrs Ast.next head ns ->
  (length ns <= fuel)%nat ->
  exists m',
    Ast.append_question fuel head new m = Done head m' /\
    (forall ns', ~ is_list Ast.next (Ast.qnodes m') head ns') /\
    (forall fuel' f i, Ast.export_loop fuel' f head i m' = OutOfFuel) /\
    (forall fuel' new', Ast.append_question fuel' head new' m' = OutOfFuel).
Proof.
  intros Hl Hin Hf.
  assert (Hne : ns <> []).
  { intros ->. simpl in Hin. apply elem_of_nil in Hin. exact Hin. }
  destruct (append_question_run ns m head new fuel Hl Hne Hf)
    as (t & n_last & Ht & Hn & Hrun).
  eexists. split; [exact Hrun|].
  set (addrs := list_to_set (list_addrs Ast.next head ns) : gset Z).
  assert (Hclosed : closed_chain Ast.next
                      (<[t := with_next n_last new]> (Ast.qnodes m)) addrs).
  { intros a Ha. apply elem_of_list_to_set in Ha.
    destruct (is_list_addr Ast.next _ _ _ _ Hl Ha) as (Ha0 & n & Hlook & Hnext).
    split; [exact Ha0|].
    destruct (decide (a = t)) as [->|Hat].
    - eexists. split; [apply lookup_insert_eq|].
      apply elem_of_list_to_set. exact Hin.
    - exists n. split; [rewrite lookup_insert_ne by congruence; exact Hlook|].
      destruct Hnext as [Hnext|Hlast]; [apply elem_of_list_to_set, Hnext|].
      congruence. }
  assert (Hhead : head ∈ addrs).
  { apply elem_of_list_to_set. destruct ns as [|n ns]; [congruence|].
    simpl. apply elem_of_cons. auto. }
  split; [|split].
  - intros ns'. apply (closed_chain_no_list Ast.next _ addrs); assumption.
  - intros fuel' f i. apply (export_loop_closed addrs); assumption.
  - intros fuel' new'. unfold Ast.append_question.
    destruct (Hclosed head Hhead) as (Hnn & _).
    destruct (decide (head = NULL)); [congruence|].
    rewrite bind_run, (find_tail_closed addrs) by assumption. reflexivity.
Qed.

(** The head of the sample paper appended to the paper itself. *)
Lemma append_question_alias_witness :
  exists m',
    Ast.append_question 2 2 2 paper_mem = Done 2 m' /\
    ~ is_list Ast.next (Ast.qnodes m') 2 [paper_q1; paper_q2] /\
    Ast.export_loop 1000 "jobs/j1/ast.dot" 2 0 m' = OutOfFuel.
Proof.
  destruct (append_question_alias paper_mem 2 2 [paper_q1; paper_q2] 2)
    as (m' & Hrun & Hno & Hloop & _).
  - vm_compute. repeat split; absurd_eq.
  - by_decision.
  - simpl. lia.
  - exists m'. split; [exact Hrun|]. split; [apply Hno | apply Hloop].
Defined.

(** ** The exporter on arbitrary memory *)

(** The run of the exporter when the output file cannot be opened. *)
Lemma export_ast_to_dot_unwritable_run (fuel : nat) (root : Z) (filepath : string)
    (m : Ast.Mem) :
  filepath ∈ Ast.no_write m ->
  Ast.export_ast_to_dot fuel root filepath m
  = Done tt (Ast.set_stderr (Ast.stderr m ++ [perror_line m])
               (Ast.set_stdout (Ast.stdout m ++ [exporting_line filepath]) m)).
Proof.
  intros Hw. unfold Ast.export_ast_to_dot.
  run_step printf_run. run_step fopen_w_fails. reflexivity.
Qed.

(** X12: when the output file cannot be opened the exporter writes its
    announcement and the [perror] line and returns: it never reads the
    tree, so the run finishes for every root pointer and every budget, and
    no file and no object changes. *)
Theorem export_ast_to_dot_unwritable (fuel : nat) (root : Z) (filepath : string)
    (m : Ast.Mem) :
  filepath ∈ Ast.no_write m ->
  Ast.export_ast_to_dot fuel root filepath m
  = Done tt (Ast.set_stderr (Ast.stderr m ++ [perror_line m])
               (Ast.set_stdout (Ast.stdout m ++ [exporting_line filepath]) m)).
Proof. exact (export_ast_to_dot_unwritable_run fuel root filepath m). Qed.

Lemma export_ast_to_dot_unwritable_witness :
  Ast.export_ast_to_dot 0 0 "jobs/j1/ast.dot" locked_mem
  = Done tt (Ast.set_stderr ["Failed to open ast.dot: Permission denied" +:+ nl]
               (Ast.set_stdout [exporting_line "jobs/j1/ast.dot"] locked_mem)).
Proof.
  apply (export_ast_to_dot_unwritable 0 0 "jobs/j1/ast.dot" locked_mem). by_decision.
Defined.

Lemma export_loop_Done_is_list (fuel : nat) (f : string) (q i : Z) (m m' : Ast.Mem)
    (u : unit) :
  Ast.export_loop fuel f q i m = Done u m' ->
  exists ns, is_list Ast.next (Ast.qnodes m) q ns /\ (length ns < fuel)%nat.
Proof.
  revert q i m. induction fuel as [|fuel IH]; intros q i m; cbn [Ast.export_loop].
  - absurd_eq.
  - destruct (decide (q <> NULL)) as [Hq|Hq].
    + rewrite bind_run. unfold Ast.load_q.
      destruct (Ast.qnodes m !! q) as [n|] eqn:Hn; [|absurd_eq].
      rewrite bind_run. cbn [Ast.fprintf]. rewrite bind_run. cbn [Ast.fprintf].
      intros Hrun. apply IH in Hrun as (ns & Hl & Hf).
      exists (n :: ns). simpl. split; [auto | lia].
    + intros _. exists []. simpl. split; [|lia].
      destruct (decide (q = NULL)); tauto.
Qed.

(** A finished run of the exporter on a path that can be opened has read
    a well-formed document. *)
Lemma export_ast_to_dot_Done (fuel : nat) (root : Z) (filepath : string)
    (m m' : Ast.Mem) :
  filepath ∉ Ast.no_write m ->
  Ast.export_ast_to_dot fuel root filepath m = Done tt m' ->
  exists r ns,
    Ast.anodes m !! root = Some r /\
    is_list Ast.next (Ast.qnodes m) (Ast.questions r) ns /\ (length ns < fuel)%nat.
Proof.
  intros Hw Hrun. unfold Ast.export_ast_to_dot in Hrun.
  erewrite bind_step in Hrun by apply printf_run.
  erewrite bind_step in Hrun by (apply fopen_w_run; exact Hw).
  cbn [negb] in Hrun.
  erewrite bind_step in Hrun by (apply fprintf_run, write_file_lookup).
  erewrite bind_step in Hrun by (apply fprintf_run, write_file_lookup).
  apply bind_Done in Hrun as (r & m1 & Hload & Hrun).
  unfold Ast.load_a in Hload. cbn [Ast.anodes write_file Ast.set_files Ast.set_stdout] in Hload.
  destruct (Ast.anodes m !! root) as [r'|] eqn:Hr; [|discriminate Hload].
  injection Hload as <- <-.
  erewrite bind_step in Hrun by (apply fprintf_run, write_file_lookup).
  apply bind_Done in Hrun as (u & m2 & Hloop & _).
  apply export_loop_Done_is_list in Hloop as (ns & Hl & Hf).
  exists r', ns. auto.
Qed.

(** X13: the exporter finishes exactly when the output file cannot be
    opened or the root points at a tree node whose question list is
    NULL-terminated; a finished run that could open the file has written
    the statements of that document and nothing else to it. *)
Theorem export_ast_to_dot_finishes_iff (root : Z) (filepath : string) (m : Ast.Mem) :
  ((exists fuel m', Ast.export_ast_to_dot fuel root filepath m = Done tt m')
   <-> filepath ∈ Ast.no_write m \/
       exists r ns, Ast.anodes m !! root = Some r /\
                    is_list Ast.next (Ast.qnodes m) (Ast.questions r) ns) /\
  (forall fuel m',
     filepath ∉ Ast.no_write m ->
     Ast.export_ast_to_dot fuel root filepath m = Done tt m' ->
     exists r ns, Ast.anodes m !! root = Some r /\
                  is_list Ast.next (Ast.qnodes m) (Ast.questions r) ns /\
                  Ast.files m' !! filepath = Some (dot_file r ns)).
Proof.
  split; [split|].
  - intros (fuel & m' & Hrun).
    destruct (decide (filepath ∈ Ast.no_write m)) as [Hw|Hw]; [auto|]. right.
    destruct (export_ast_to_dot_Done fuel root filepath m m' Hw Hrun)
      as (r & ns & Hr & Hl & _).
    exists r, ns. auto.
  - intros [Hw|(r & ns & Hr & Hl)].
    + exists 0%nat. eexists. apply export_ast_to_dot_unwritable_run, Hw.
    + destruct (export_ast_to_dot_total m root r ns filepath (Datatypes.S (length ns))
                  Hr Hl) as [m' Hrun]; [lia|].
      exists (Datatypes.S (length ns)), m'. exact Hrun.
  - intros fuel m' Hw Hrun.
    destruct (export_ast_to_dot_Done fuel root filepath m m' Hw Hrun)
      as (r & ns & Hr & Hl & Hf).
    exists r, ns. split; [exact Hr|]. split; [exact Hl|].
    rewrite (export_ast_to_dot_run m root r ns filepath fuel Hr Hl Hw Hf) in Hrun.
    injection Hrun as <-. apply write_file_lookup.
Qed.

(** What a finished run of the exporter leaves as it was. *)
Lemma export_ast_to_dot_untouched (fuel : nat) (root : Z) (filepath : string)
    (m m' : Ast.Mem) :
  Ast.export_ast_to_dot fuel root filepath m = Done tt m' ->
  Ast.qnodes m' = Ast.qnodes m /\ Ast.anodes m' = Ast.anodes m /\
  Ast.root m' = Ast.root m /\ Ast.yyin m' = Ast.yyin m /\
  Ast.job_dir_path m' = Ast.job_dir_path m /\ Ast.no_write m' = Ast.no_write m /\
  (forall other, other <> filepath -> Ast.files m' !! other = Ast.files m !! other) /\
  Ast.stdout m' = Ast.stdout m ++ [exporting_line filepath].
Proof.
  intros Hrun. destruct (decide (filepath ∈ Ast.no_write m)) as [Hw|Hw].
  - rewrite (export_ast_to_dot_unwritable_run fuel root filepath m Hw) in Hrun.
    injection Hrun as <-. repeat split; reflexivity.
  - destruct (export_ast_to_dot_Done fuel root filepath m m' Hw Hrun)
      as (r & ns & Hr & Hl & Hf).
    rewrite (export_ast_to_dot_run m root r ns filepath fuel Hr Hl Hw Hf) in Hrun.
    injection Hrun as <-.
    repeat split; try reflexivity.
    intros other Hother. unfold write_file. cbn [Ast.files Ast.set_files Ast.set_stdout].
    apply lookup_insert_ne. congruence.
Qed.

(** X14: a finished run of the exporter changes nothing but the file it
    was given and the output streams: all objects, the globals and every
    other file are as before, and standard output has grown by the one
    announcement line. *)
Theorem export_ast_to_dot_frame (fuel : nat) (root : Z) (filepath : string)
    (m m' : Ast.Mem) :
  Ast.export_ast_to_dot fuel root filepath m = Done tt m' ->
  Ast.qnodes m' = Ast.qnodes m /\ Ast.anodes m' = Ast.anodes m /\
  Ast.root m' = Ast.root m /\ Ast.yyin m' = Ast.yyin m /\
  Ast.job_dir_path m' = Ast.job_dir_path m /\ Ast.no_write m' = Ast.no_write m /\
  (forall other, other <> filepath -> Ast.files m' !! other = Ast.files m !! other) /\
  Ast.stdout m' = Ast.stdout m ++ [exporting_line filepath].
Proof. exact (export_ast_to_dot_untouched fuel root filepath m m'). Qed.

Lemma export_ast_to_dot_frame_witness :
  exists m',
    Ast.export_ast_to_dot 3 1 "jobs/j1/ast.dot" paper_mem = Done tt m' /\
    Ast.qnodes m' = Ast.qnodes paper_mem /\ Ast.anodes m' = Ast.anodes paper_mem /\
    Ast.stdout m' = Ast.stdout paper_mem ++ [exporting_line "jobs/j1/ast.dot"].
Proof.
  assert (Hroot : Ast.anodes paper_mem !! 1 = Some paper_root) by reflexivity.
  assert (Hl : is_list Ast.next (Ast.qnodes paper_mem) (Ast.questions paper_root)
                 [paper_q1; paper_q2]) by (vm_compute; repeat split; absurd_eq).
  assert (Hw : "jobs/j1/ast.dot" ∉ Ast.no_write paper_mem) by by_decision.
  assert (Hf : (length [paper_q1; paper_q2] < 3)%nat) by (simpl; lia).
  pose proof (export_ast_to_dot_run paper_mem 1 paper_root [paper_q1; paper_q2]
                "jobs/j1/ast.dot" 3 Hroot Hl Hw Hf) as Hrun.
  eexists. split; [exact Hrun|].
  destruct (export_ast_to_dot_frame 3 1 "jobs/j1/ast.dot" paper_mem _ Hrun)
    as (Hq & Ha & _ & _ & _ & _ & _ & Hout).
  split; [exact Hq|]. split; [exact Ha | exact Hout].
Defined.

Lemma question_stmts_marks (i : Z) (ns ns' : list Ast.QuestionNode) :
  Ast.marks <$> ns = Ast.marks <$> ns' -> question_stmts i ns = question_stmts i ns'.
Proof.
  revert i ns'. induction ns as [|n ns IH]; intros i [|n' ns'] H; try discriminate H.
  - reflexivity.
  - rewrite !fmap_cons in H. injection H as Hm H. simpl. rewrite Hm.
    f_equal. f_equal. apply IH, H.
Qed.

(** X15: the exported file is a function of the subject, the two totals
    and the sequence of marks alone: two documents that agree on these get
    the same file, whatever the texts, difficulties, topics, Bloom's levels
    and statuses of their questions and wherever their nodes live. *)
Theorem export_depends_on_marks_only (m1 m2 : Ast.Mem) (root1 root2 : Z)
    (r1 r2 : Ast.ASTNode) (ns1 ns2 : list Ast.QuestionNode) (filepath : string)
    (fuel1 fuel2 : nat) :
  Ast.anodes m1 !! root1 = Some r1 ->
  is_list Ast.next (Ast.qnodes m1) (Ast.questions r1) ns1 ->
  filepath ∉ Ast.no_write m1 -> (length ns1 < fuel1)%nat ->
  Ast.anodes m2 !! root2 = Some r2 ->
  is_list Ast.next (Ast.qnodes m2) (Ast.questions r2) ns2 ->
  filepath ∉ Ast.no_write m2 -> (length ns2 < fuel2)%nat ->
  Ast.subject r1 = Ast.subject r2 -> Ast.total_marks r1 = Ast.total_marks r2 ->
  Ast.total_time r1 = Ast.total_time r2 ->
  Ast.marks <$> ns1 = Ast.marks <$> ns2 ->
  exists m1' m2',
    Ast.export_ast_to_dot fuel1 root1 filepath m1 = Done tt m1' /\
    Ast.export_ast_to_dot fuel2 root2 filepath m2 = Done tt m2' /\
    Ast.files m1' !! filepath = Ast.files m2' !! filepath.
Proof.
  intros Hr1 Hl1 Hw1 Hf1 Hr2 Hl2 Hw2 Hf2 Hs Hm Ht Hmarks.
  eexists _, _.
  split; [apply (export_ast_to_dot_run m1 root1 r1 ns1); assumption|].
  split; [apply (export_ast_to_dot_run m2 root2 r2 ns2); assumption|].
  rewrite !write_file_lookup. f_equal. unfold dot_file.
  rewrite Hs, Hm, Ht, (question_stmts_marks 0 ns1 ns2 Hmarks). reflexivity.
Qed.

Lemma export_depends_on_marks_only_witness :
  exists m1' m2',
    Ast.export_ast_to_dot 3 1 "jobs/j1/ast.dot" paper_mem = Done tt m1' /\
    Ast.export_ast_to_dot 5 9 "jobs/j1/ast.dot" plain_mem = Done tt m2' /\
    Ast.files m1' !! "jobs/j1/ast.dot" = Ast.files m2' !! "jobs/j1/ast.dot".
Proof.
  apply (export_depends_on_marks_only paper_mem plain_mem 1 9 paper_root
           (Ast.mkASTNode "Compiler Design" 15 30 "syllabus/other.json" 6)
           [paper_q1; paper_q2]
           [with_next (fresh_question "Optimize the loop." 10) 5;
            fresh_question "State the pumping lemma." 5]).
  - reflexivity.
  - vm_compute. repeat split; absurd_eq.
  - by_decision.
  - simpl. lia.
  - reflexivity.
  - vm_compute. repeat split; absurd_eq.
  - by_decision.
  - simpl. lia.
  - reflexivity.
  - reflexivity.
  - reflexivity.
  - reflexivity.
Defined.

(** ** Node identifiers *)

Lemma parse_fmt_d (z : Z) : parse_d (fmt_d z) = Some z.
Proof.
  unfold parse_d, fmt_d. rewrite <- (DecimalZ.of_to z) at 2.
  destruct (Z.to_int z) as [[| | | | | | | | | |]|[| | | | | | | | | |]];
    try (rewrite NilZero.isi by discriminate; reflexivity).
  - rewrite NilZero.isi_posnil. reflexivity.
  - rewrite NilZero.isi_negnil. reflexivity.
Qed.

Lemma fmt_d_inj (a b : Z) : fmt_d a = fmt_d b -> a = b.
Proof.
  intros H. pose proof (parse_fmt_d a) as Ha. rewrite H, parse_fmt_d in Ha.
  congruence.
Qed.

Lemma question_id_inj (a b : Z) : Ast.question_id a = Ast.question_id b -> a = b.
Proof.
  unfold Ast.question_id. intros H.
  change (String "q" (fmt_d a) = String "q" (fmt_d b)) in H.
  injection H as H. apply fmt_d_inj, H.
Qed.

Lemma upto_space_uint (u : Decimal.uint) (rest : string) :
  upto_space (NilEmpty.string_of_uint u +:+ String " " rest)
  = NilEmpty.string_of_uint u.
Proof.
  induction u as [|u IH|u IH|u IH|u IH|u IH|u IH|u IH|u IH|u IH|u IH];
    cbn [NilEmpty.string_of_uint];
    rewrite ?append_String, ?append_Empty; cbn [upto_space Ascii.eqb Bool.eqb];
    rewrite ?IH; reflexivity.
Qed.

(** The [%d] conversion writes no space. *)
Lemma upto_space_fmt_d (z : Z) (rest : string) :
  upto_space (fmt_d z +:+ String " " rest) = fmt_d z.
Proof.
  unfold fmt_d, NilZero.string_of_int, NilZero.string_of_uint.
  destruct (Z.to_int z) as [u|u]; destruct u;
    rewrite ?append_String; cbn [upto_space Ascii.eqb Bool.eqb];
    rewrite ?append_String; cbn [upto_space Ascii.eqb Bool.eqb];
    rewrite ?upto_space_uint; try reflexivity.
Qed.

Lemma node_id_question_stmt (i marks : Z) :
  node_id (Ast.question_stmt i marks) = Ast.question_id i.
Proof.
  unfold Ast.question_stmt, Ast.question_id.
  change (node_id ("  " +:+ ?s)) with (upto_space s).
  rewrite append_assoc, append_String.
  cbn [node_id upto_space Ascii.eqb Bool.eqb]. f_equal.
  apply upto_space_fmt_d.
Qed.

Lemma question_nodes_of_dot_file (r : Ast.ASTNode) (ns : list Ast.QuestionNode) :
  List.filter is_question_node (dot_file r ns)
  = imap (fun k n => Ast.question_stmt (wrap_int (Z.of_nat k)) (Ast.marks n)) ns.
Proof.
  unfold dot_file. rewrite !List.filter_app.
  change 0 with (wrap_int (Z.of_nat 0)). rewrite question_nodes_of_stmts.
  cbn [List.filter].
  change (is_question_node Ast.dot_open) with false.
  change (is_question_node Ast.dot_defaults) with false.
  change (is_question_node Ast.dot_close) with false.
  change (is_question_node (Ast.root_stmt (Ast.subject r) (Ast.total_marks r)
                              (Ast.total_time r))) with false.
  cbv iota. rewrite app_nil_r. reflexivity.
Qed.

(** X16: the exporter gives every question node of the file an
    identifier of its own. For a well-formed document with at most
    2147483647 questions, so that the [int] counter never overflows, the
    identifiers of the question-node statements in the exported file are
    q0, q1, ... in the order of the questions, no identifier is written
    twice, and so no two node statements are equal even when two questions
    have the same marks. *)
Theorem question_ids_unique (m : Ast.Mem) (root : Z) (r : Ast.ASTNode)
    (ns : list Ast.QuestionNode) (filepath : string) (fuel : nat) :
  Ast.anodes m !! root = Some r ->
  is_list Ast.next (Ast.qnodes m) (Ast.questions r) ns ->
  filepath ∉ Ast.no_write m ->
  (length ns < fuel)%nat ->
  Z.of_nat (length ns) <= INT_MAX ->
  exists m' out,
    Ast.export_ast_to_dot fuel root filepath m = Done tt m' /\
    Ast.files m' !! filepath = Some out /\
    node_id <$> List.filter is_question_node out
      = imap (fun k _ => Ast.question_id (Z.of_nat k)) ns /\
    NoDup (node_id <$> List.filter is_question_node out) /\
    NoDup (List.filter is_question_node out).
Proof.
  intros Hroot Hl Hw Hf Hsmall.
  assert (Hids : node_id <$> List.filter is_question_node (dot_file r ns)
                 = imap (fun k _ => Ast.question_id (Z.of_nat k)) ns).
  { rewrite question_nodes_of_dot_file, fmap_imap. apply imap_ext.
    intros k n Hk. cbn. rewrite node_id_question_stmt.
    apply lookup_lt_Some in Hk. rewrite wrap_int_id; [reflexivity|].
    unfold in_int_range, INT_MIN, INT_MAX in *. lia. }
  assert (Hnodup : NoDup (node_id <$> List.filter is_question_node (dot_file r ns))).
  { rewrite Hids, (imap_seq_0 ns (fun k => Ast.question_id (Z.of_nat k))).
    apply NoDup_fmap_2; [|apply NoDup_seq].
    intros a b H. apply question_id_inj in H. lia. }
  exists (write_file filepath (dot_file r ns)
            (Ast.set_stdout
               (Ast.stdout m ++ ["AST Helper: Exporting AST to " +:+ filepath +:+ nl]) m)),
    (dot_file r ns).
  split; [apply (export_ast_to_dot_run m root r ns); assumption|].
  split; [apply write_file_lookup|].
  split; [exact Hids|]. split; [exact Hnodup|].
  apply (NoDup_fmap_1 node_id), Hnodup.
Qed.

(** The paper whose two questions have the same text and marks: the two
    node statements of its file carry the identifiers q0 and q1. *)
Lemma question_ids_unique_witness :
  exists m' out,
    Ast.export_ast_to_dot 3 1 "jobs/j1/ast.dot" twin_mem = Done tt m' /\
    Ast.files m' !! "jobs/j1/ast.dot" = Some out /\
    node_id <$> List.filter is_question_node out = ["q0"; "q1"] /\
    NoDup (List.filter is_question_node out).
Proof.
  destruct (question_ids_unique twin_mem 1 twin_root
              [with_next (fresh_question "State the lemma." 5) 3;
               fresh_question "State the lemma." 5] "jobs/j1/ast.dot" 3)
    as (m' & out & Hrun & Hfile & Hids & _ & Hnodup).
  - reflexivity.
  - vm_compute. repeat split; absurd_eq.
  - by_decision.
  - simpl. lia.
  - vm_compute. absurd_eq.
  - exists m', out. split; [exact Hrun|]. split; [exact Hfile|].
    split; [exact Hids | exact Hnodup].
Defined.

(** ** Releasing the tree *)

(** X17: [free_ast] releases the tree node and nothing else. Called with
    [NULL] it leaves the memory unchanged; called with the address of a
    tree node it leaves that address without an object, while every
    question node is still allocated and every list still well-formed (the
    questions are not reclaimed); an export of the released root to a file
    that can be opened then reads through the stale pointer. *)
Theorem free_ast_releases_root_only (root : Z) (m : Ast.Mem) :
  root = NULL \/ is_Some (Ast.anodes m !! root) ->
  exists m',
    Ast.free_ast root m = Done tt m' /\
    (root = NULL -> m' = m) /\
    (root <> NULL -> Ast.anodes m' !! root = None) /\
    (forall a, a <> root -> Ast.anodes m' !! a = Ast.anodes m !! a) /\
    Ast.qnodes m' = Ast.qnodes m /\
    (forall p ns, is_list Ast.next (Ast.qnodes m) p ns ->
                  is_list Ast.next (Ast.qnodes m') p ns) /\
    Ast.files m' = Ast.files m /\
    (forall fuel filepath,
       root <> NULL -> filepath ∉ Ast.no_write m ->
       Ast.export_ast_to_dot fuel root filepath m' = Fault).
Proof.
  intros Hlive. unfold Ast.free_ast. destruct (decide (root = NULL)) as [Hr|Hr].
  - exists m. split; [reflexivity|]. repeat split; try tauto.
  - destruct Hlive as [Hnull|[r Hlive]]; [tauto|].
    eexists. split; [unfold Ast.free_a; rewrite Hlive; reflexivity|].
    split; [tauto|]. split; [intros _; apply lookup_delete_eq|].
    split; [intros a Ha; apply lookup_delete_ne; congruence|].
    split; [reflexivity|]. split; [auto|]. split; [reflexivity|].
    intros fuel filepath _ Hw. unfold Ast.export_ast_to_dot.
    run_step printf_run. run_step fopen_w_run. cbn [negb].
    run_step fprintf_run. run_step fprintf_run.
    rewrite bind_run. unfold Ast.load_a.
    cbn [Ast.anodes write_file Ast.set_files Ast.set_stdout Ast.set_anodes].
    rewrite lookup_delete_eq. reflexivity.
Qed.

(** The tree of the sample paper released: its two questions stay, and a
    second export reads freed memory. *)
Lemma free_ast_releases_root_only_witness :
  exists m',
    Ast.free_ast 1 paper_mem = Done tt m' /\
    Ast.anodes m' !! 1 = None /\
    is_list Ast.next (Ast.qnodes m') 2 [paper_q1; paper_q2] /\
    Ast.export_ast_to_dot 3 1 "jobs/j1/ast.dot" m' = Fault.
Proof.
  destruct (free_ast_releases_root_only 1 paper_mem)
    as (m' & Hrun & _ & Hgone & _ & _ & Hlists & _ & Hstale).
  - right. eexists. reflexivity.
  - exists m'. split; [exact Hrun|].
    split; [apply Hgone; absurd_eq|].
    split; [apply Hlists; vm_compute; repeat split; absurd_eq|].
    apply Hstale; [absurd_eq | by_decision].
Defined.

(** ** The driver *)

Lemma assign_run (f : Ast.Mem -> Ast.Mem) (m : Ast.Mem) :
  Driver.assign f m = Done tt (f m).
Proof. reflexivity. Qed.

Lemma global_run {A : Type} (f : Ast.Mem -> A) (m : Ast.Mem) :
  Driver.global f m = Done (f m) m.
Proof. reflexivity. Qed.

Lemma call_run {A : Type} (f : Ast.Mem -> A * Ast.Mem) (m : Ast.Mem) :
  Driver.call f m = Done (f m).1 (f m).2.
Proof. unfold Driver.call. destruct (f m). reflexivity. Qed.

Lemma call_void_run (f : Ast.Mem -> Ast.Mem) (m : Ast.Mem) :
  Driver.call_void f m = Done tt (f m).
Proof. reflexivity. Qed.

Lemma string_at_run (p : Ast.Mem -> option string) (m : Ast.Mem) (s : string) :
  p m = Some s -> Driver.string_at p m = Done s m.
Proof. intros H. unfold Driver.string_at. rewrite H. reflexivity. Qed.

Lemma fclose_run (m : Ast.Mem) : Ast.fclose m = Done tt m.
Proof. reflexivity. Qed.

(** Runs the first command of the driver. *)
Ltac drive :=
  erewrite bind_step
    by first [ apply assign_run | apply global_run | apply call_run
             | apply call_void_run
             | apply string_at_run; first [reflexivity | eassumption]
             | apply printf_run | apply eprintf_run | apply fopen_r_run
             | apply fclose_run
             | apply sprintf_run; eassumption ];
  cbn [fst snd].

(** Runs [main] on two arguments up to the formatting of the input path. *)
Ltac drive_to_input :=
  unfold Driver.main;
  match goal with
  | |- context [decide (length ?l <> 2%nat)] =>
      let Hargc := fresh in
      destruct (decide (length l <> 2%nat)) as [Hargc|_];
      [simpl in Hargc; congruence|]
  end;
  cbn [lookup list_lookup default from_option id];
  drive; drive; drive; drive;
  match goal with
  | |- context [Ast.sprintf 1024 (?job +:+ "/input.qp")] =>
      change (job +:+ "/input.qp") with (input_path job)
  end.


Section DriverRuns.
Variable lexer_init : string -> Ast.Mem -> Ast.Mem.
Variable lexer_cleanup : Ast.Mem -> Ast.Mem.
Variable yyparse : Ast.Mem -> Z * Ast.Mem.

(** The run with a number of arguments other than two. *)
Lemma main_usage_run (fuel : nat) (argv : list string) (m0 : Ast.Mem) :
  length argv <> 2%nat ->
  Driver.main lexer_init lexer_cleanup yyparse fuel argv m0
  = Done 1 (Ast.set_stderr (Ast.stderr m0 ++ [usage_line argv]) m0).
Proof.
  intros Hargc. unfold Driver.main.
  destruct (decide (length argv <> 2%nat)); [|tauto].
  drive. reflexivity.
Qed.

(** The run with a job directory whose input path does not fit. *)
Lemma main_input_path_overflow (fuel : nat) (argv0 job : string) (m0 : Ast.Mem) :
  ~ (String.length (input_path job) < 1024)%nat ->
  Driver.main lexer_init lexer_cleanup yyparse fuel [argv0; job] m0 = Fault.
Proof.
  intros Hlong. drive_to_input.
  rewrite bind_run. unfold Ast.sprintf.
  destruct (decide (String.length (input_path job) < 1024)%nat); [tauto|].
  reflexivity.
Qed.

(** The run without the input file. *)
Lemma main_input_missing_run (fuel : nat) (argv0 job : string) (m0 : Ast.Mem) :
  (String.length (input_path job) < 1024)%nat ->
  Ast.files m0 !! input_path job = None ->
  Driver.main lexer_init lexer_cleanup yyparse fuel [argv0; job] m0
  = Done 1 (Ast.set_stderr (Ast.stderr m0 ++ [cannot_open_line job])
              (Ast.set_yyin None (at_open job m0))).
Proof.
  intros Hfit Hnone. drive_to_input.
  drive. drive.
  cbn [Ast.files Ast.set_stdout Ast.set_job_dir_path]. rewrite Hnone.
  drive. destruct (decide (None = None)) as [_|Hn]; [|congruence].
  drive. reflexivity.
Qed.






End DriverRuns.



(** ** The driver, path by path *)

(** X18: called with any number of arguments other than two, the driver
    returns 1 after writing the usage line, with the name it was called by,
    to standard error: it touches nothing else, and neither the lexer nor
    the parser nor the exporter runs. *)
Theorem main_usage_error (lexer_init : string -> Ast.Mem -> Ast.Mem)
    (lexer_cleanup : Ast.Mem -> Ast.Mem) (yyparse : Ast.Mem -> Z * Ast.Mem)
    (fuel : nat) (argv : list string) (m0 : Ast.Mem) :
  length argv <> 2%nat ->
  Driver.main lexer_init lexer_cleanup yyparse fuel argv m0
  = Done 1 (Ast.set_stderr (Ast.stderr m0 ++ [usage_line argv]) m0).
Proof. exact (main_usage_run lexer_init lexer_cleanup yyparse fuel argv m0). Qed.

Lemma main_usage_error_witness :
  Driver.main sample_lexer_init sample_lexer_cleanup accepting_yyparse 3
    ["./q_compiler"] job_mem
  = Done 1 (Ast.set_stderr ["Usage: ./q_compiler <path_to_job_directory>" +:+ nl]
              job_mem).
Proof.
  apply (main_usage_error sample_lexer_init sample_lexer_cleanup accepting_yyparse 3
           ["./q_compiler"] job_mem).
  simpl. lia.
Defined.

(** X19: when the input file of the job does not exist, the driver returns
    1 having recorded the job directory, announced the job on standard
    output, left [yyin] at [NULL] and reported the path on standard error;
    the lexer and the parser are never called, and no file or object
    changes. *)
Theorem main_input_missing (lexer_init : string -> Ast.Mem -> Ast.Mem)
    (lexer_cleanup : Ast.Mem -> Ast.Mem) (yyparse : Ast.Mem -> Z * Ast.Mem)
    (fuel : nat) (argv0 job : string) (m0 : Ast.Mem) :
  (String.length (input_path job) < 1024)%nat ->
  Ast.files m0 !! input_path job = None ->
  Driver.main lexer_init lexer_cleanup yyparse fuel [argv0; job] m0
  = Done 1 (Ast.set_stderr (Ast.stderr m0 ++ [cannot_open_line job])
              (Ast.set_yyin None (at_open job m0))).
Proof.
  exact (main_input_missing_run lexer_init lexer_cleanup yyparse fuel argv0 job m0).
Qed.

Lemma main_input_missing_witness :
  Driver.main sample_lexer_init sample_lexer_cleanup accepting_yyparse 3
    ["./q_compiler"; "jobs/j1"] empty_mem
  = Done 1 (Ast.set_stderr [cannot_open_line "jobs/j1"]
              (Ast.set_yyin None (at_open "jobs/j1" empty_mem))).
Proof.
  apply (main_input_missing sample_lexer_init sample_lexer_cleanup accepting_yyparse 3
           "./q_compiler" "jobs/j1" empty_mem).
  - vm_compute. lia.
  - reflexivity.
Defined.







(** X23: the path of the input is formatted into 1024 bytes without a
    bound. A job directory of up to 1014 characters fits, and then the
    shorter path of ast.dot fits its buffer too; with 1015 characters or
    more the driver writes past the buffer before it opens anything. *)
Theorem main_path_overflow (lexer_init : string -> Ast.Mem -> Ast.Mem)
    (lexer_cleanup : Ast.Mem -> Ast.Mem) (yyparse : Ast.Mem -> Z * Ast.Mem)
    (fuel : nat) (argv0 job : string) (m0 : Ast.Mem) :
  (1015 <= String.length job)%nat ->
  Driver.main lexer_init lexer_cleanup yyparse fuel [argv0; job] m0 = Fault /\
  forall short : string,
    (String.length short <= 1014)%nat ->
    (String.length (input_path short) < 1024)%nat /\
    (String.length (dot_path short) < String.length (input_path short))%nat.
Proof.
  intros Hlong. split.
  - apply main_input_path_overflow.
    unfold input_path. rewrite length_append. simpl. lia.
  - intros short Hshort. unfold input_path, dot_path. rewrite !length_append. simpl. lia.
Qed.

Lemma main_path_overflow_witness :
  Driver.main sample_lexer_init sample_lexer_cleanup accepting_yyparse 3
    ["./q_compiler"; long_job] job_mem = Fault /\
  (String.length (input_path longest_job) < 1024)%nat.
Proof.
  destruct (main_path_overflow sample_lexer_init sample_lexer_cleanup accepting_yyparse 3
              "./q_compiler" long_job job_mem) as [Hfault Hfits].
  - vm_compute. lia.
  - split; [exact Hfault|]. apply Hfits. vm_compute. lia.
Defined.

(** ** Building and exporting the tree *)

Lemma create_ast_node_run (subject : string) (marks time : Z) (syllabus_path : string)
    (questions : Z) (m : Ast.Mem) :
  Ast.create_ast_node subject marks time syllabus_path questions m
  = Done (Ast.unused m)
      (Ast.set_anodes
         (<[Ast.unused m := Ast.mkASTNode subject marks time syllabus_path questions]>
            (Ast.anodes m)) m).
Proof. reflexivity. Qed.

(** X24: a tree node created over a well-formed question list can be
    exported at once: the node lives at a new address that is neither
    [NULL] nor the address of any existing object, the question list and
    the other tree nodes are untouched, and the exported file is the one of
    the document with the given subject, the given marks as total marks,
    the given time as total time and the questions of the list; the
    syllabus path does not reach the file. *)
Theorem create_ast_node_then_export (subject : string) (marks time : Z)
    (syllabus_path : string) (questions : Z) (ns : list Ast.QuestionNode)
    (filepath : string) (fuel : nat) (m : Ast.Mem) :
  is_list Ast.next (Ast.qnodes m) questions ns ->
  filepath ∉ Ast.no_write m ->
  (length ns < fuel)%nat ->
  exists root m',
    (r ← Ast.create_ast_node subject marks time syllabus_path questions;
     Ast.export_ast_to_dot fuel r filepath) m = Done tt m' /\
    root <> NULL /\ Ast.anodes m !! root = None /\ Ast.qnodes m !! root = None /\
    Ast.anodes m' !! root
      = Some (Ast.mkASTNode subject marks time syllabus_path questions) /\
    (forall a, a <> root -> Ast.anodes m' !! a = Ast.anodes m !! a) /\
    Ast.qnodes m' = Ast.qnodes m /\
    Ast.files m' !! filepath
      = Some ([Ast.dot_open; Ast.dot_defaults; Ast.root_stmt subject marks time]
              ++ question_stmts 0 ns ++ [Ast.dot_close]).
Proof.
  intros Hl Hw Hf. destruct (unused_spec m) as (Hnull & Hq & Ha).
  set (r := Ast.mkASTNode subject marks time syllabus_path questions).
  set (m1 := Ast.set_anodes (<[Ast.unused m := r]> (Ast.anodes m)) m).
  assert (Hrun : Ast.export_ast_to_dot fuel (Ast.unused m) filepath m1
                 = Done tt (write_file filepath (dot_file r ns)
                              (Ast.set_stdout
                                 (Ast.stdout m1 ++ ["AST Helper: Exporting AST to "
                                                    +:+ filepath +:+ nl]) m1))).
  { apply export_ast_to_dot_run; try assumption. apply lookup_insert_eq. }
  exists (Ast.unused m). eexists.
  split; [erewrite bind_step by apply create_ast_node_run; exact Hrun|].
  split; [exact Hnull|]. split; [exact Ha|]. split; [exact Hq|].
  unfold write_file, m1.
  cbn [Ast.anodes Ast.qnodes Ast.files Ast.set_files Ast.set_stdout Ast.set_anodes].
  split; [apply lookup_insert_eq|].
  split; [intros a Hne; apply lookup_insert_ne; congruence|].
  split; [reflexivity|]. apply lookup_insert_eq.
Qed.

Lemma create_ast_node_then_export_witness :
  exists root m',
    (r ← Ast.create_ast_node "Automata" 15 45 "syllabus/toc.json" 2;
     Ast.export_ast_to_dot 3 r "jobs/j2/ast.dot") paper_mem = Done tt m' /\
    root <> NULL /\
    Ast.files m' !! "jobs/j2/ast.dot"
      = Some [Ast.dot_open; Ast.dot_defaults; Ast.root_stmt "Automata" 15 45;
              Ast.question_stmt 0 10; Ast.edge_stmt 0;
              Ast.question_stmt 1 5; Ast.edge_stmt 1; Ast.dot_close].
Proof.
  destruct (create_ast_node_then_export "Automata" 15 45 "syllabus/toc.json" 2
              [paper_q1; paper_q2] "jobs/j2/ast.dot" 3 paper_mem)
    as (root & m' & Hrun & Hnull & _ & _ & _ & _ & _ & Hfile).
  - vm_compute. repeat split; absurd_eq.
  - by_decision.
  - simpl. lia.
  - exists root, m'. split; [exact Hrun|]. split; [exact Hnull | exact Hfile].
Defined.
